(** * kvstore: a line-oriented, in-memory key-value server

    Shallow embedding of [KVStore.cpp] (the store) and of
    [Server::handle_client] in [server.cpp] (the connection handler), with
    the properties of the protocol that the specification states. The
    handler is the one with the accumulation buffer and the line loop; line
    numbers in the comments are those of [server.cpp].

    Conventions.
    - [std::string] is [string] (a sequence of 8-bit characters);
      [std::string::npos] is [None].
    - [std::unordered_map<std::string, std::string>] is [gmap string string].
    - The handler runs against a peer that is described by the results of its
      successive [read] calls and by the value returned by each [write] call.
    - The shared/exclusive lock of the store is not modelled: every method
      holds it for its whole body, so one handler, taken alone, sees each
      method as an atomic function on the map. *)

From Stdlib Require Import String Ascii List ZArith Lia Bool.
From stdpp Require Import base gmap strings list fin_maps.
From Equations Require Import Equations.

Local Open Scope string_scope.
#[local] Arguments String.append !s1 s2 : simpl nomatch.
Local Open Scope Z_scope.
Local Open Scope nat_scope.

(** ** Characters and [std::string] operations used by the handler *)

Module Str.

(** The line terminator ['\n'] and the C string terminator ['\0']. *)
Definition NL : ascii := "010"%char.
Definition NUL : ascii := "000"%char.
Definition SP : ascii := " "%char.

Definition nl : string := String NL "".

(** [std::isspace] in the "C" locale: space, and the controls 9 to 13
    (tab, line feed, vertical tab, form feed, carriage return). *)
Definition isspace (c : ascii) : bool :=
  let n := nat_of_ascii c in
  (n =? 32) || ((9 <=? n) && (n <=? 13)).

(** [s.empty()] *)
Definition empty (s : string) : bool :=
  match s with
  | EmptyString => true
  | String _ _ => false
  end.

(** [s.find(ch)]: index of the first occurrence of [ch]. *)
Fixpoint find (s : string) (ch : ascii) : option nat :=
  match s with
  | EmptyString => None
  | String c s' =>
      if Ascii.eqb c ch then Some 0
      else match find s' ch with
           | Some p => Some (S p)
           | None => None
           end
  end.

(** [s.substr(0, n)]: the first [n] characters (all of [s] when it is
    shorter). *)
Fixpoint substr_0 (s : string) (n : nat) {struct n} : string :=
  match n, s with
  | S n', String c s' => String c (substr_0 s' n')
  | _, _ => EmptyString
  end.

(** [s.erase(0, n)]: [s] without its first [n] characters (empty when it is
    shorter). *)
Fixpoint erase_0 (s : string) (n : nat) {struct n} : string :=
  match n, s with
  | S n', String _ s' => erase_0 s' n'
  | _, _ => s
  end.

(** The C string held by a character array that starts with [data] and is
    followed by zero bytes: the characters before the first ['\0']. This
    is what [buffer += chunk] appends. *)
Fixpoint c_str (data : string) : string :=
  match data with
  | EmptyString => EmptyString
  | String c data' => if Ascii.eqb c NUL then EmptyString else String c (c_str data')
  end.

(** Characters of a string, for predicates on all of them. *)
Fixpoint all_chars (p : ascii -> bool) (s : string) : bool :=
  match s with
  | EmptyString => true
  | String c s' => p c && all_chars p s'
  end.

Definition all_space (s : string) : bool := all_chars isspace s.
Definition no_space (s : string) : bool := all_chars (fun c => negb (isspace c)) s.
Definition no_char (ch : ascii) (s : string) : bool :=
  all_chars (fun c => negb (Ascii.eqb c ch)) s.


End Str.

(** ** [std::istringstream]: formatted extraction and [std::getline] *)

Module IStream.
Import Str.

(** The unread characters and the two state bits the handler can reach. *)
Record istringstream := mk_iss {
  rdbuf : string;
  eofbit : bool;
  failbit : bool
}.

(** [std::istringstream iss(line)] *)
Definition of_string (line : string) : istringstream :=
  {| rdbuf := line; eofbit := false; failbit := false |}.

Definition good (iss : istringstream) : bool :=
  negb (eofbit iss || failbit iss).

(** Leading whitespace skipped by the sentry of a formatted input. *)
Fixpoint skipws (s : string) : string :=
  match s with
  | EmptyString => EmptyString
  | String c s' => if isspace c then skipws s' else s
  end.

(** The characters up to the next whitespace, and what follows them. *)
Fixpoint span_nonspace (s : string) : string * string :=
  match s with
  | EmptyString => (EmptyString, EmptyString)
  | String c s' =>
      if isspace c then (EmptyString, s)
      else let '(tok, rest) := span_nonspace s' in (String c tok, rest)
  end.

(** [iss >> str]. When the stream is not good, or holds only whitespace,
    the sentry fails and [str] keeps its value; otherwise [str] is
    replaced by the next token. Reaching the end of the characters sets
    [eofbit]. *)
Definition extract (iss : istringstream) (str : string) : istringstream * string :=
  if good iss then
    match skipws (rdbuf iss) with
    | EmptyString =>
        ({| rdbuf := EmptyString; eofbit := true; failbit := true |}, str)
    | String c s' =>
        let '(tok, rest) := span_nonspace (String c s') in
        ({| rdbuf := rest; eofbit := empty rest; failbit := false |}, tok)
    end
  else
    ({| rdbuf := rdbuf iss; eofbit := eofbit iss; failbit := true |}, str).

(** [std::getline(iss, str)]: no whitespace is skipped. When the stream is
    not good, [str] keeps its value; otherwise [str] receives the
    characters up to the next ['\n'] (which is consumed) or up to the end. *)
Definition getline (iss : istringstream) (str : string) : istringstream * string :=
  if good iss then
    match find (rdbuf iss) NL with
    | Some p =>
        ({| rdbuf := erase_0 (rdbuf iss) (p + 1); eofbit := false; failbit := false |},
         substr_0 (rdbuf iss) p)
    | None =>
        ({| rdbuf := EmptyString; eofbit := true; failbit := empty (rdbuf iss) |},
         rdbuf iss)
    end
  else
    ({| rdbuf := rdbuf iss; eofbit := eofbit iss; failbit := true |}, str).

End IStream.

(** ** The store ([KVStore.cpp]) *)

Module KVStore.

(** [class KVStore]: the map [data_]. *)
Record t := mk { data_ : gmap string string }.

(** [void KVStore::set(key, value)]: [data_[key] = value]. *)
Definition set (key value : string) (s : t) : t :=
  {| data_ := <[key := value]> (data_ s) |}.

(** [std::string KVStore::get(key)]: the value found, or the empty string;
    the second component is the store after the call. *)
Definition get (key : string) (s : t) : string * t :=
  match data_ s !! key with
  | Some v => (v, s)
  | None => (EmptyString, s)
  end.

(** [bool KVStore::remove(key)]: erases the key when it is found. *)
Definition remove (key : string) (s : t) : bool * t :=
  match data_ s !! key with
  | Some _ => (true, {| data_ := delete key (data_ s) |})
  | None => (false, s)
  end.

Definition empty_store : t := {| data_ := ∅ |}.

End KVStore.

(** ** The connection handler ([Server::handle_client]) *)

Module Server.
Import Str IStream.

(** The body of the line loop after the empty-line test (lines 220 to 269):
    the line is parsed with an [istringstream] and dispatched to the store.
    Returns the store after the command and the response to write. *)
Definition process_line (store_ : KVStore.t) (line : string) : KVStore.t * string :=
  let iss := of_string line in
  let '(iss, command) := extract iss EmptyString in
  if String.eqb command "SET" then
    let '(iss, key) := extract iss EmptyString in
    let '(iss, value) := getline iss EmptyString in
    let value :=
      match value with
      | String c _ => if Ascii.eqb c SP then erase_0 value 1 else value
      | EmptyString => value
      end in
    if negb (empty key) && negb (empty value) then
      (KVStore.set key value store_, "OK" +:+ nl)
    else
      (store_, "ERROR: SET requires key and value" +:+ nl)
  else if String.eqb command "GET" then
    let '(iss, key) := extract iss EmptyString in
    if negb (empty key) then
      let '(value, store_) := KVStore.get key store_ in
      if negb (empty value) then (store_, value +:+ nl)
      else (store_, "NOT_FOUND" +:+ nl)
    else
      (store_, "ERROR: GET requires key" +:+ nl)
  else if String.eqb command "DEL" then
    let '(iss, key) := extract iss EmptyString in
    if negb (empty key) then
      let '(deleted, store_) := KVStore.remove key store_ in
      (store_, if deleted then "DELETED" +:+ nl else "NOT_FOUND" +:+ nl)
    else
      (store_, "ERROR: DEL requires key" +:+ nl)
  else
    (store_, "ERROR: Unknown command" +:+ nl).

(** What one [read(client_socket, chunk, sizeof(chunk) - 1)] gives: some
    bytes (at most 1023 of them), end of stream (0) or an error (-1). *)
Inductive read_result :=
| Bytes (data : string)
| Eof
| ReadError.

(** [bytes_read] *)
Definition bytes_read (r : read_result) : Z :=
  match r with
  | Bytes data => Z.of_nat (String.length data)
  | Eof => 0%Z
  | ReadError => (-1)%Z
  end.

(** The state of one handler: the store it talks to, its accumulation
    buffer, and the [write] calls made so far, each with the value it
    returned. *)
Record conn := mk_conn {
  store_ : KVStore.t;
  buffer : string;
  sent : list (string * Z)
}.

(** How the line loop ends: it falls through to the next [read], or the
    handler has closed the socket and returned. *)
Inductive flow :=
| Continue (c : conn)
| Return (c : conn).

(** Keeps the equation of a case analysis, for the termination proof. *)
Definition inspect {A : Type} (a : A) : {b : A | a = b} := exist _ a eq_refl.

Lemma find_erase_shorter (s : string) (ch : ascii) (pos : nat) :
  find s ch = Some pos -> String.length (erase_0 s (pos + 1)) < String.length s.
Proof.
  revert pos. induction s as [|c s IH]; intros pos H; simpl in H; [discriminate|].
  destruct (Ascii.eqb c ch).
  - injection H as <-. simpl. lia.
  - destruct (find s ch) as [p|] eqn:E; [|discriminate].
    injection H as <-. simpl. specialize (IH p eq_refl). lia.
Qed.

Section Peer.

(** The value returned by the [n]-th [write] call of the handler
    (counted from 0); a negative value is a failure. *)
Variable write_ret : nat -> Z.

(** The inner loop, lines 211 to 277:
    [while ((pos = buffer.find('\n')) != npos) { ... }]. *)
Equations? lines_loop (c : conn) : flow by wf (String.length (buffer c)) lt :=
  lines_loop c with inspect (find (buffer c) NL) := {
    | exist _ None _ => Continue c
    | exist _ (Some pos) Hpos =>
        let line := substr_0 (buffer c) pos in
        let buffer' := erase_0 (buffer c) (pos + 1) in
        if empty line then
          lines_loop {| store_ := store_ c; buffer := buffer'; sent := sent c |}
        else
          let '(store', response) := process_line (store_ c) line in
          let bytes_written := write_ret (List.length (sent c)) in
          let c' := {| store_ := store'; buffer := buffer';
                       sent := sent c ++ [(response, bytes_written)] |} in
          if (bytes_written <? 0)%Z then Return c'
          else lines_loop c'
  }.
Proof.
  all: simpl; eapply find_erase_shorter; eassumption.
Qed.

(** The body of the loop run on lines that are already extracted: each
    one is dispatched and answered in turn, until a write fails. The
    boolean tells whether every write went through. *)
Fixpoint respond (lines : list string) (store : KVStore.t)
         (log : list (string * Z)) : KVStore.t * list (string * Z) * bool :=
  match lines with
  | [] => (store, log, true)
  | line :: lines' =>
      let '(store', response) := process_line store line in
      let bytes_written := write_ret (List.length log) in
      let log' := (log ++ [(response, bytes_written)])%list in
      if (bytes_written <? 0)%Z then (store', log', false)
      else respond lines' store' log'
  end.

(** The outer loop, lines 200 to 278, over the results of the successive
    [read] calls; when they are used up the peer has closed the stream.
    The result is the handler's final state and the reads it never made. *)
Fixpoint read_loop (reads : list read_result) (c : conn) : conn * list read_result :=
  match reads with
  | [] => (c, [])
  | r :: reads' =>
      if (bytes_read r <=? 0)%Z then (c, reads')
      else
        let chunk := match r with Bytes data => data | _ => EmptyString end in
        let c1 := {| store_ := store_ c; buffer := buffer c +:+ c_str chunk;
                     sent := sent c |} in
        match lines_loop c1 with
        | Return c2 => (c2, reads')
        | Continue c2 => read_loop reads' c2
        end
  end.

(** [handle_client]: starts with an empty buffer; the socket is closed on
    every way out. *)
Definition handle_client (store : KVStore.t) (reads : list read_result)
  : conn * list read_result :=
  read_loop reads {| store_ := store; buffer := EmptyString; sent := [] |}.

End Peer.

End Server.

(** ** The codec of the specification, read off the handler *)

Module Codec.
Import Str.

(** The line extraction of the inner loop taken alone (lines 211 to 218):
    the non-empty lines it hands to the parser, in order, and the buffer it
    leaves behind. *)
Equations? extract_lines (buffer : string) : list string * string
  by wf (String.length buffer) lt :=
  extract_lines buffer with Server.inspect (find buffer NL) := {
    | exist _ None _ => ([], buffer)
    | exist _ (Some pos) Hpos =>
        let line := substr_0 buffer pos in
        let buffer' := erase_0 buffer (pos + 1) in
        if empty line then extract_lines buffer'
        else
          let '(lines, rest) := extract_lines buffer' in
          (line :: lines, rest)
  }.
Proof.
  all: eapply Server.find_erase_shorter; eassumption.
Qed.

(** One delivery (lines 204 to 218): the bytes read are appended to the
    buffer as a C string and the complete lines are extracted. Returns the
    extracted lines and the buffer kept for the next delivery. *)
Definition feed (buffer data : string) : list string * string :=
  extract_lines (buffer +:+ c_str data).

(** Two deliveries in a row: the lines of the first followed by the lines
    of the second, and the buffer left by the second. *)
Definition feed2 (buffer data1 data2 : string) : list string * string :=
  let '(lines1, buffer1) := feed buffer data1 in
  let '(lines2, buffer2) := feed buffer1 data2 in
  ((lines1 ++ lines2)%list, buffer2).

(** The whitespace-separated tokens of a line, as the specification
    speaks of them: the line is cut at every whitespace character and the
    empty pieces are dropped. *)
Fixpoint split_ws (s : string) : list string :=
  match s with
  | EmptyString => [EmptyString]
  | String c s' =>
      if isspace c then EmptyString :: split_ws s'
      else match split_ws s' with
           | w :: ws => String c w :: ws
           | [] => [String c EmptyString]
           end
  end.

Definition tokens (line : string) : list string :=
  List.filter (fun w => negb (empty w)) (split_ws line).

(** What may follow a token: nothing, or a whitespace character. *)
Definition boundary (rest : string) : bool :=
  match rest with
  | EmptyString => true
  | String c _ => isspace c
  end.

(** The value of a [SET]: the remainder after the key without one leading
    space. *)
Definition strip_space (rem : string) : string :=
  match rem with
  | String c rem' => if Ascii.eqb c SP then rem' else rem
  | EmptyString => EmptyString
  end.

(** The command names the handler knows. *)
Definition commands : list string := ["SET"; "GET"; "DEL"].

(** A line that starts with the token [SET]: whitespace, [SET], whitespace,
    the key token (empty when the line ends there) and the remainder of the
    line after the key. *)
Definition set_shape (line pre sep key rem : string) : Prop :=
  line = pre +:+ "SET" +:+ sep +:+ key +:+ rem /\
  all_space pre = true /\ all_space sep = true /\
  no_space key = true /\ boundary rem = true /\
  (if empty key then rem = EmptyString else sep <> EmptyString).

(** The lines that are protocol faults: the first token is not a command
    name, or the command has no key, or a [SET] has no value left after
    its key. *)
Inductive malformed : string -> Prop :=
| unknown_command (line : string) :
    ~ In (hd EmptyString (tokens line)) commands -> malformed line
| missing_key (line cmd : string) :
    In cmd commands -> tokens line = [cmd] -> malformed line
| missing_value (line pre sep key rem : string) :
    set_shape line pre sep key rem -> strip_space rem = EmptyString ->
    malformed line.

End Codec.

(** ** What the handler keeps true of the store and of its output *)

Module Invariants.
Import Str.

(** The stores that handlers alone have written: keys are tokens (not
    empty, no whitespace) and values are not empty and hold no line
    terminator. *)
Definition wf_store (s : KVStore.t) : Prop :=
  forall k v : string,
    KVStore.data_ s !! k = Some v ->
    k <> EmptyString /\ no_space k = true /\
    v <> EmptyString /\ no_char NL v = true.

(** A payload that is exactly one terminated line. *)
Definition one_line (payload : string) : Prop :=
  exists text : string, payload = text +:+ nl /\ no_char NL text = true.

(** A [write] that did not fail. *)
Definition accepted (w : string * Z) : Prop := (0 <= snd w)%Z.

(** What a client sends for a list of lines: each one followed by the
    terminator. *)
Fixpoint frame (lines : list string) : string :=
  match lines with
  | [] => EmptyString
  | line :: lines' => line +:+ String NL (frame lines')
  end.

End Invariants.

(** ** The listener ([Server::Server], [Server::~Server], [Server::start])
       and [main] *)

Module Listener.

(** The values returned by the four calls of the constructor. *)
Record startup := mk_startup {
  socket_ret : Z;
  setsockopt_ret : Z;
  bind_ret : Z;
  listen_ret : Z
}.

(** What the listener does to the outside, in order. *)
Inductive call :=
| Socket
| Setsockopt (fd : Z)
| Bind (fd port : Z)
| Listen (fd : Z)
| Close (fd : Z)
| Accept (fd : Z)
| SpawnHandler (client_fd : Z)
| PrintStarting (port : Z)
| PrintShutdown
| PrintAcceptFailed
| PrintServerError (what : string).

(** The members of [Server] other than the store reference. *)
Record server := mk_server {
  port_ : Z;
  server_fd_ : Z
}.

(** The port number that [htons(port_)] puts in the address: [port_]
    converted to 16 bits (the byte order is not modelled). *)
Definition sin_port (port : Z) : Z := (port mod 65536)%Z.

(** [Server::Server(store, port)], lines 114 to 145: the calls made, and
    either the message of the [std::runtime_error] thrown or the server. *)
Definition construct (os : startup) (port : Z) : list call * (string + server) :=
  let fd := socket_ret os in
  if (fd <? 0)%Z then
    ([Socket], inl "Failed to create socket")
  else if (setsockopt_ret os <? 0)%Z then
    ([Socket; Setsockopt fd; Close fd], inl "Failed to set socket options")
  else if (bind_ret os <? 0)%Z then
    ([Socket; Setsockopt fd; Bind fd (sin_port port); Close fd],
     inl "Failed to bind socket")
  else if (listen_ret os <? 0)%Z then
    ([Socket; Setsockopt fd; Bind fd (sin_port port); Listen fd; Close fd],
     inl "Failed to listen on socket")
  else
    ([Socket; Setsockopt fd; Bind fd (sin_port port); Listen fd],
     inr {| port_ := port; server_fd_ := fd |}).

(** [Server::~Server()], lines 150 to 155. *)
Definition destruct_server (srv : server) : list call :=
  if (server_fd_ srv =? -1)%Z then []
  else [Close (server_fd_ srv); PrintShutdown].

(** One turn of the accept loop as the outside decides it: the value
    returned by [accept] and, for a connection, the message of the
    [std::system_error] that [std::thread] throws when the thread cannot be
    started ([None] when it starts). *)
Record arrival := mk_arrival {
  accept_ret : Z;
  thread_error : option string
}.

(** The loop of [Server::start], lines 170 to 185, over the arrivals seen
    so far: the calls made, and the message of the exception that left the
    loop, if one did. The loop has no other way out. *)
Fixpoint accept_loop (srv : server) (arrivals : list arrival)
  : list call * option string :=
  match arrivals with
  | [] => ([], None)
  | a :: arrivals' =>
      if (accept_ret a <? 0)%Z then
        let '(calls, thrown) := accept_loop srv arrivals' in
        (Accept (server_fd_ srv) :: PrintAcceptFailed :: calls, thrown)
      else
        match thread_error a with
        | Some what => ([Accept (server_fd_ srv)], Some what)
        | None =>
            let '(calls, thrown) := accept_loop srv arrivals' in
            (Accept (server_fd_ srv) :: SpawnHandler (accept_ret a) :: calls, thrown)
        end
  end.

(** [Server::start()], lines 164 to 186. *)
Definition start (srv : server) (arrivals : list arrival)
  : list call * option string :=
  let '(calls, thrown) := accept_loop srv arrivals in
  (PrintStarting (port_ srv) :: calls, thrown).

(** How [main] stands after the arrivals seen so far. *)
Inductive outcome :=
| Serving
| Exit (status : Z)
| Uncaught (what : string).

(** [main], [main.cpp] lines 5 to 18. The server is constructed outside
    the [try] block, so an exception of the constructor is not caught;
    an exception of [start] is caught, reported, and [main] returns 1, the
    server being destroyed on the way out. *)
Definition main (os : startup) (arrivals : list arrival) : list call * outcome :=
  match construct os 8080 with
  | (calls, inl what) => (calls, Uncaught what)
  | (calls, inr srv) =>
      match start srv arrivals with
      | (calls', None) => ((calls ++ calls')%list, Serving)
      | (calls', Some what) =>
          ((calls ++ calls' ++ PrintServerError what :: destruct_server srv)%list,
           Exit 1)
      end
  end.

(** The descriptors a run has closed, and the handlers it has started. *)
Definition closed (calls : list call) : list Z :=
  flat_map (fun c => match c with Close fd => [fd] | _ => [] end) calls.


End Listener.

(** * Properties *)

(** ** Strings *)

Module StrFacts.
Import Str.

Lemma app_assoc (a b c : string) : (a +:+ b) +:+ c = a +:+ (b +:+ c).
Proof. induction a as [|x a IH]; simpl; [reflexivity | now rewrite IH]. Qed.

Lemma app_empty_r (a : string) : a +:+ EmptyString = a.
Proof. induction a as [|x a IH]; simpl; [reflexivity | now rewrite IH]. Qed.


Lemma empty_false (s : string) : empty s = false <-> s <> EmptyString.
Proof. destruct s; simpl; split; congruence. Qed.

Lemma find_app_some (x y : string) (ch : ascii) (p : nat) :
  find x ch = Some p -> find (x +:+ y) ch = Some p.
Proof.
  revert p. induction x as [|c x IH]; intros p H; simpl in *; [discriminate|].
  destruct (Ascii.eqb c ch); [assumption|].
  destruct (find x ch) as [q|]; [|discriminate].
  now rewrite (IH q eq_refl).
Qed.

Lemma substr_0_app (x y : string) (ch : ascii) (p : nat) :
  find x ch = Some p -> substr_0 (x +:+ y) p = substr_0 x p.
Proof.
  revert p. induction x as [|c x IH]; intros p H; simpl in *; [discriminate|].
  destruct (Ascii.eqb c ch).
  - injection H as <-. reflexivity.
  - destruct (find x ch) as [q|]; [|discriminate].
    injection H as <-. simpl. now rewrite (IH q eq_refl).
Qed.

Lemma erase_0_app (x y : string) (ch : ascii) (p : nat) :
  find x ch = Some p -> erase_0 (x +:+ y) (p + 1) = erase_0 x (p + 1) +:+ y.
Proof.
  revert p. induction x as [|c x IH]; intros p H; simpl in *; [discriminate|].
  destruct (Ascii.eqb c ch).
  - injection H as <-. reflexivity.
  - destruct (find x ch) as [q|]; [|discriminate].
    injection H as <-. simpl. now rewrite (IH q eq_refl).
Qed.

(** A buffer that starts with a line and its terminator. *)
Lemma find_line (line rest : string) :
  no_char NL line = true ->
  find (line +:+ String NL rest) NL = Some (String.length line).
Proof.
  induction line as [|c line IH]; simpl; intros H; [reflexivity|].
  apply andb_prop in H as [Hc Hl]. apply negb_true_iff in Hc.
  rewrite Hc, (IH Hl). reflexivity.
Qed.

Lemma substr_0_line (line rest : string) :
  substr_0 (line +:+ rest) (String.length line) = line.
Proof.
  induction line as [|c line IH]; simpl; [reflexivity | now rewrite IH].
Qed.

Lemma erase_0_line (line rest : string) (c : ascii) :
  erase_0 (line +:+ String c rest) (String.length line + 1) = rest.
Proof.
  induction line as [|x line IH]; simpl; [reflexivity | assumption].
Qed.

Lemma find_none_no_char (s : string) (ch : ascii) :
  find s ch = None <-> no_char ch s = true.
Proof.
  unfold no_char. induction s as [|c s IH]; simpl; [tauto|].
  destruct (Ascii.eqb c ch); simpl.
  - split; discriminate.
  - destruct (find s ch); rewrite <- IH; split; congruence.
Qed.

Lemma c_str_app (a b : string) :
  no_char NUL a = true -> c_str (a +:+ b) = a +:+ c_str b.
Proof.
  induction a as [|c a IH]; simpl; intros H; [reflexivity|].
  apply andb_prop in H as [Hc Ha]. apply negb_true_iff in Hc.
  rewrite Hc, (IH Ha). reflexivity.
Qed.

End StrFacts.

(** ** Line extraction *)

Module CodecFacts.
Import Str StrFacts Server Codec.

(** The extraction loop, unfolded once. *)
Lemma extract_lines_step (buffer : string) :
  extract_lines buffer =
  match find buffer NL with
  | None => ([], buffer)
  | Some pos =>
      let line := substr_0 buffer pos in
      let buffer' := erase_0 buffer (pos + 1) in
      if empty line then extract_lines buffer'
      else let '(lines, rest) := extract_lines buffer' in (line :: lines, rest)
  end.
Proof.
  rewrite extract_lines_equation_1.
  destruct (inspect (find buffer NL)) as [[p|] e].
  - rewrite extract_lines_clause_1_equation_1, e. reflexivity.
  - rewrite extract_lines_clause_1_equation_2, e. reflexivity.
Qed.

(** Bytes that arrive later do not change the lines already complete:
    extraction from [x +:+ y] is extraction from [x], then extraction from
    what [x] left followed by [y]. *)
Lemma extract_lines_app (x y : string) :
  extract_lines (x +:+ y) =
  let '(lines1, rest1) := extract_lines x in
  let '(lines2, rest2) := extract_lines (rest1 +:+ y) in
  ((lines1 ++ lines2)%list, rest2).
Proof.
  remember (String.length x) as n eqn:Hn. revert x Hn.
  induction n as [n IH] using lt_wf_ind. intros x ->.
  rewrite (extract_lines_step x).
  destruct (find x NL) as [p|] eqn:Hfind.
  - rewrite (extract_lines_step (x +:+ y)).
    rewrite (find_app_some _ _ _ _ Hfind). cbv zeta.
    rewrite (substr_0_app _ _ _ _ Hfind), (erase_0_app _ _ _ _ Hfind).
    pose proof (find_erase_shorter _ _ _ Hfind) as Hlt.
    specialize (IH _ Hlt (erase_0 x (p + 1)) eq_refl).
    rewrite IH.
    destruct (empty (substr_0 x p)); [reflexivity|].
    destruct (extract_lines (erase_0 x (p + 1))) as [l1 r1].
    destruct (extract_lines (r1 +:+ y)) as [l2 r2]. reflexivity.
  - destruct (extract_lines (x +:+ y)) as [l2 r2]. reflexivity.
Qed.

Lemma feed2_feed (buffer a b : string) :
  no_char NUL a = true -> feed2 buffer a b = feed buffer (a +:+ b).
Proof.
  intros Ha. unfold feed2, feed.
  rewrite (c_str_app _ _ Ha), <- StrFacts.app_assoc.
  rewrite (extract_lines_app (buffer +:+ a) (c_str b)).
  replace (c_str a) with a.
  - destruct (extract_lines (buffer +:+ a)) as [l1 r1].
    destruct (extract_lines (r1 +:+ c_str b)) as [l2 r2]. reflexivity.
  - rewrite <- (StrFacts.app_empty_r a) at 2.
    rewrite (c_str_app _ _ Ha). simpl. now rewrite StrFacts.app_empty_r.
Qed.

End CodecFacts.

(** ** Tokens and formatted extraction *)

Module ParseFacts.
Import Str StrFacts IStream Codec.

Lemma tokens_space (c : ascii) (s : string) :
  isspace c = true -> tokens (String c s) = tokens s.
Proof. intros H. unfold tokens. simpl. rewrite H. reflexivity. Qed.

(** The first piece of a split is free of whitespace, and the rest of the
    string starts right after it. *)
Lemma split_ws_shape (s : string) :
  exists w ws rest,
    split_ws s = w :: ws /\ s = w +:+ rest /\ no_space w = true /\
    boundary rest = true /\
    tokens rest = List.filter (fun w => negb (empty w)) ws.
Proof.
  induction s as [|c s IH].
  - exists EmptyString, [], EmptyString. repeat split.
  - destruct IH as (w & ws & rest & Hsplit & Hs & Hw & Hb & Ht).
    destruct (isspace c) eqn:Hc.
    + exists EmptyString, (split_ws s), (String c s). simpl. rewrite Hc.
      repeat split. now rewrite tokens_space.
    + exists (String c w), ws, rest. simpl. rewrite Hc, Hsplit.
      unfold no_space in *. simpl. rewrite Hc, Hw. subst s.
      repeat split; assumption.
Qed.

(** A line with a first token: whitespace, the token, and a remainder
    that holds the other tokens. *)
Lemma tokens_cons_shape (line t : string) (ts : list string) :
  tokens line = t :: ts ->
  exists pre rest,
    line = pre +:+ t +:+ rest /\ all_space pre = true /\
    no_space t = true /\ t <> EmptyString /\
    boundary rest = true /\ tokens rest = ts.
Proof.
  induction line as [|c s IH]; intros H; [discriminate|].
  destruct (isspace c) eqn:Hc.
  - rewrite (tokens_space _ _ Hc) in H.
    destruct (IH H) as (pre & rest & -> & Hpre & Ht & Hne & Hb & Hts).
    exists (String c pre), rest. unfold all_space in *. simpl. rewrite Hc, Hpre.
    repeat split; assumption.
  - destruct (split_ws_shape s) as (w & ws & rest & Hsplit & -> & Hw & Hb & Hts).
    unfold tokens in H. simpl in H. rewrite Hc, Hsplit in H. simpl in H.
    injection H as <- <-.
    exists EmptyString, rest. unfold no_space in *. simpl. rewrite Hc, Hw.
    repeat split; try assumption. discriminate.
Qed.

Lemma tokens_nil_all_space (s : string) : tokens s = [] -> all_space s = true.
Proof.
  induction s as [|c s IH]; intros H; [reflexivity|].
  destruct (isspace c) eqn:Hc.
  - rewrite (tokens_space _ _ Hc) in H. unfold all_space in *. simpl.
    now rewrite Hc, IH.
  - destruct (split_ws_shape s) as (w & ws & rest & Hsplit & _).
    unfold tokens in H. simpl in H. rewrite Hc, Hsplit in H. discriminate.
Qed.

Lemma skipws_all_space (pre s : string) :
  all_space pre = true -> skipws (pre +:+ s) = skipws s.
Proof.
  unfold all_space. induction pre as [|c pre IH]; simpl; intros H; [reflexivity|].
  apply andb_prop in H as [Hc Hp]. rewrite Hc. auto.
Qed.

Lemma skipws_blank (s : string) : all_space s = true -> skipws s = EmptyString.
Proof.
  intros H. rewrite <- (StrFacts.app_empty_r s), (skipws_all_space _ _ H).
  reflexivity.
Qed.

Lemma span_nonspace_app (t rest : string) :
  no_space t = true -> boundary rest = true ->
  span_nonspace (t +:+ rest) = (t, rest).
Proof.
  unfold no_space. intros Ht Hb. induction t as [|c t IH]; simpl in *.
  - destruct rest as [|r rest]; [reflexivity|]. simpl in *. now rewrite Hb.
  - apply andb_prop in Ht as [Hc Ht]. apply negb_true_iff in Hc.
    rewrite Hc, (IH Ht). reflexivity.
Qed.

(** [iss >> str] on a good stream whose characters are whitespace, a token
    and a remainder: the token is read and the remainder stays. *)
Lemma extract_token (iss : istringstream) (str pre t rest : string) :
  good iss = true -> rdbuf iss = pre +:+ t +:+ rest ->
  all_space pre = true -> no_space t = true -> t <> EmptyString ->
  boundary rest = true ->
  extract iss str = ({| rdbuf := rest; eofbit := empty rest; failbit := false |}, t).
Proof.
  intros Hg Hbuf Hpre Ht Hne Hb. unfold extract. rewrite Hg, Hbuf.
  rewrite (skipws_all_space _ _ Hpre).
  destruct t as [|c t]; [congruence|].
  pose proof (span_nonspace_app _ _ Ht Hb) as Hspan.
  unfold no_space in Ht. simpl in Ht. apply andb_prop in Ht as [Hc _].
  apply negb_true_iff in Hc.
  change (String c t +:+ rest) with (String c (t +:+ rest)) in *.
  cbn [skipws]. rewrite Hc, Hspan. reflexivity.
Qed.

(** [iss >> str] leaves [str] as it was when the stream is not good or
    holds only whitespace. *)
Lemma extract_nothing (iss : istringstream) (str : string) :
  good iss = false \/ all_space (rdbuf iss) = true ->
  snd (extract iss str) = str.
Proof.
  intros H. unfold extract. destruct (good iss); [|reflexivity].
  destruct H as [H|H]; [discriminate|]. now rewrite (skipws_blank _ H).
Qed.

(** The same two facts in terms of tokens. *)
Lemma extract_tokens (iss : istringstream) (str t : string) (ts : list string) :
  good iss = true -> tokens (rdbuf iss) = t :: ts ->
  exists rest,
    extract iss str = ({| rdbuf := rest; eofbit := empty rest; failbit := false |}, t)
    /\ tokens rest = ts /\ boundary rest = true /\ t <> EmptyString.
Proof.
  intros Hg H.
  destruct (tokens_cons_shape _ _ _ H) as (pre & rest & Hbuf & Hpre & Ht & Hne & Hb & Hts).
  exists rest. repeat split; try assumption.
  now apply (extract_token iss str pre t rest).
Qed.

Lemma extract_no_tokens (iss : istringstream) (str : string) :
  tokens (rdbuf iss) = [] -> snd (extract iss str) = str.
Proof. intros H. apply extract_nothing. right. now apply tokens_nil_all_space. Qed.

(** The stream left by a successful extraction is good exactly when some
    characters remain. *)
Lemma good_after (rest : string) :
  good {| rdbuf := rest; eofbit := empty rest; failbit := false |} = negb (empty rest).
Proof. unfold good. simpl. now rewrite orb_false_r. Qed.

(** The second extraction of the handler when a key is there. *)
Lemma extract_after (rest str t : string) (ts : list string) :
  tokens rest = t :: ts ->
  exists rest',
    extract {| rdbuf := rest; eofbit := empty rest; failbit := false |} str =
    ({| rdbuf := rest'; eofbit := empty rest'; failbit := false |}, t)
    /\ tokens rest' = ts /\ boundary rest' = true /\ t <> EmptyString.
Proof.
  intros H. apply extract_tokens; [|exact H].
  rewrite good_after. destruct rest; [discriminate | reflexivity].
Qed.

End ParseFacts.

(** ** The store *)

Module KVStoreFacts.
Import KVStore.

Lemma get_store (k : string) (s : t) : snd (get k s) = s.
Proof. unfold get. now destruct (data_ s !! k). Qed.

Lemma remove_result (k : string) (s : t) :
  fst (remove k s) = bool_decide (is_Some (data_ s !! k)).
Proof.
  unfold remove. destruct (data_ s !! k) as [v|] eqn:E; cbn [fst].
  - symmetry. apply bool_decide_eq_true_2. eauto.
  - symmetry. apply bool_decide_eq_false_2. intros [v Hv]. discriminate.
Qed.

Lemma remove_lookup (k k' : string) (s : t) :
  data_ (snd (remove k s)) !! k' = if decide (k = k') then None else data_ s !! k'.
Proof.
  unfold remove. destruct (data_ s !! k) as [v|] eqn:E; simpl.
  - apply lookup_delete.
  - case_decide; [now subst | reflexivity].
Qed.

(** C3. For every key [k] and every value [v] (so for every non-empty
    one), [set(k, v)] followed by [get(k)] returns [v]: [set] is a total
    function, it has no failure result, the map of the store it returns
    holds [v] at [k], and the read that follows returns [v] and leaves
    that store as it is. *)
Theorem set_then_get (s : t) (k v : string) :
  fst (get k (set k v s)) = v /\
  data_ (set k v s) !! k = Some v /\
  snd (get k (set k v s)) = set k v s.
Proof.
  assert (H : data_ (set k v s) !! k = Some v) by apply lookup_insert_eq.
  repeat split; [| exact H | apply get_store].
  unfold get. now rewrite H.
Qed.

(** C4. For every store and key [k], [remove(k)] returns [true] exactly
    when [k] is in the map before the call; after the call [k] is not in
    the map; and when [k] is in the map, two calls in a row return [true]
    and then [false]. *)
Theorem remove_present_absent (s : t) (k : string) :
  (fst (remove k s) = true <-> is_Some (data_ s !! k)) /\
  data_ (snd (remove k s)) !! k = None /\
  (is_Some (data_ s !! k) ->
   fst (remove k s) = true /\ fst (remove k (snd (remove k s))) = false).
Proof.
  assert (Hgone : data_ (snd (remove k s)) !! k = None).
  { rewrite remove_lookup. now case_decide. }
  repeat split.
  - rewrite remove_result. apply bool_decide_eq_true.
  - rewrite remove_result. apply bool_decide_eq_true.
  - exact Hgone.
  - rewrite remove_result. now apply bool_decide_eq_true.
  - unfold remove at 1. now rewrite Hgone.
Qed.

Lemma remove_present_absent_witness :
  let s := set "a" "1" empty_store in
  is_Some (data_ s !! "a") /\
  fst (remove "a" s) = true /\ fst (remove "a" (snd (remove "a" s))) = false.
Proof.
  intros s.
  assert (H : is_Some (data_ s !! "a")) by (exists "1"; reflexivity).
  split; [exact H|].
  exact (proj2 (proj2 (remove_present_absent s "a")) H).
Defined.

(** C9. [get] returns the store it was given, with the same map; [set(k, v)]
    and [remove(k)] leave the entry of every key other than [k] as it
    was. *)
Theorem store_frame (s : t) (k : string) :
  snd (get k s) = s /\
  (forall v k', k' <> k -> data_ (set k v s) !! k' = data_ s !! k') /\
  (forall k', k' <> k -> data_ (snd (remove k s)) !! k' = data_ s !! k').
Proof.
  repeat split.
  - apply get_store.
  - intros v k' Hne. unfold set. simpl. now apply lookup_insert_ne.
  - intros k' Hne. rewrite remove_lookup. case_decide; [congruence | reflexivity].
Qed.

Lemma store_frame_witness :
  let s := set "a" "1" (set "b" "2" empty_store) in
  snd (get "a" s) = s /\
  data_ (set "a" "9" s) !! "b" = data_ s !! "b" /\
  data_ (snd (remove "a" s)) !! "b" = data_ s !! "b".
Proof.
  intros s. destruct (store_frame s "a") as (Hget & Hset & Hrem).
  assert (Hne : "b" <> "a") by discriminate.
  exact (conj Hget (conj (Hset "9" "b" Hne) (Hrem "b" Hne))).
Defined.

End KVStoreFacts.

(** ** Dispatch of one line *)

Module DispatchFacts.
Import Str StrFacts IStream Codec ParseFacts Server.

Lemma eqb_neq_false (a b : string) : a <> b -> String.eqb a b = false.
Proof. intros H. now apply String.eqb_neq. Qed.

(** [GET] with a key: the value when it is found and not empty. *)
Lemma process_get (s : KVStore.t) (line key : string) (more : list string) :
  tokens line = "GET" :: key :: more ->
  process_line s line =
  (s, match KVStore.data_ s !! key with
      | Some (String c v) => String c v +:+ nl
      | _ => "NOT_FOUND" +:+ nl
      end).
Proof.
  intros H. unfold process_line.
  destruct (extract_tokens (of_string line) EmptyString _ _ eq_refl H)
    as (rest & -> & Hts & _ & _).
  destruct (extract_after rest EmptyString _ _ Hts) as (rest' & -> & _ & _ & Hne).
  cbn -[KVStore.get String.append]. apply empty_false in Hne. rewrite Hne.
  cbn -[String.append]. unfold KVStore.get.
  destruct (KVStore.data_ s !! key) as [[|c v]|]; reflexivity.
Qed.

(** [DEL] with a key: the store's [remove] decides the response. *)
Lemma process_del (s : KVStore.t) (line key : string) (more : list string) :
  tokens line = "DEL" :: key :: more ->
  process_line s line =
  (snd (KVStore.remove key s),
   if fst (KVStore.remove key s) then "DELETED" +:+ nl else "NOT_FOUND" +:+ nl).
Proof.
  intros H. unfold process_line.
  destruct (extract_tokens (of_string line) EmptyString _ _ eq_refl H)
    as (rest & -> & Hts & _ & _).
  destruct (extract_after rest EmptyString _ _ Hts) as (rest' & -> & _ & _ & Hne).
  cbn -[KVStore.remove String.append]. apply empty_false in Hne. rewrite Hne.
  cbn -[KVStore.remove String.append].
  now destruct (KVStore.remove key s).
Qed.

(** A command name alone on its line. *)
Lemma process_no_key (s : KVStore.t) (line cmd : string) :
  In cmd commands -> tokens line = [cmd] ->
  process_line s line = (s, "ERROR: " +:+ cmd +:+ " requires key"
                             +:+ (if String.eqb cmd "SET" then " and value" else "")
                             +:+ nl).
Proof.
  intros Hcmd H. unfold process_line.
  destruct (extract_tokens (of_string line) EmptyString _ _ eq_refl H)
    as (rest & -> & Hts & _ & _).
  pose proof (extract_no_tokens
                {| rdbuf := rest; eofbit := empty rest; failbit := false |}
                EmptyString Hts) as Hkey.
  destruct (extract _ EmptyString) as [iss2 key]. simpl in Hkey. subst key.
  destruct (getline iss2 EmptyString) as [iss3 value].
  simpl in Hcmd. destruct Hcmd as [<-|[<-|[<-|[]]]]; reflexivity.
Qed.

(** A first token that is not a command name, or no token at all. *)
Lemma process_unknown (s : KVStore.t) (line : string) :
  ~ In (hd EmptyString (tokens line)) commands ->
  process_line s line = (s, "ERROR: Unknown command" +:+ nl).
Proof.
  intros Hcmd. unfold process_line.
  assert (Hcommand : ~ In (snd (extract (of_string line) EmptyString)) commands).
  { destruct (tokens line) as [|t ts] eqn:H.
    - now rewrite (extract_no_tokens (of_string line) EmptyString H).
    - destruct (extract_tokens (of_string line) EmptyString _ _ eq_refl H)
        as (rest & -> & _). exact Hcmd. }
  destruct (extract (of_string line) EmptyString) as [iss command].
  simpl in Hcommand.
  rewrite !eqb_neq_false; [reflexivity| | |]; intros ->; apply Hcommand;
    simpl; tauto.
Qed.

Lemma strip_space_erase (value : string) :
  match value with
  | String c _ => if Ascii.eqb c SP then erase_0 value 1 else value
  | EmptyString => value
  end = strip_space value.
Proof. destruct value as [|c v]; [reflexivity|]. simpl. now destruct (Ascii.eqb c SP). Qed.

(** [SET] followed by a key and by the remainder of the line. *)
Lemma process_set (s : KVStore.t) (line pre sep key rem : string) :
  line = pre +:+ "SET" +:+ sep +:+ key +:+ rem ->
  all_space pre = true -> all_space sep = true -> sep <> EmptyString ->
  no_space key = true -> key <> EmptyString ->
  boundary rem = true -> no_char NL rem = true ->
  process_line s line =
  if negb (empty (strip_space rem))
  then (KVStore.set key (strip_space rem) s, "OK" +:+ nl)
  else (s, "ERROR: SET requires key and value" +:+ nl).
Proof.
  intros -> Hpre Hsep Hsepne Hkey Hkeyne Hrem Hnl. unfold process_line.
  assert (Hb : boundary (sep +:+ key +:+ rem) = true).
  { destruct sep as [|c sep]; [congruence|].
    unfold all_space in Hsep. simpl in Hsep. apply andb_prop in Hsep as [Hc _].
    exact Hc. }
  rewrite (extract_token (of_string _) EmptyString pre "SET" _ eq_refl eq_refl
             Hpre eq_refl ltac:(discriminate) Hb).
  cbn [String.eqb Ascii.eqb Bool.eqb andb].
  assert (Hgood : good {| rdbuf := sep +:+ key +:+ rem;
                          eofbit := empty (sep +:+ key +:+ rem);
                          failbit := false |} = true).
  { rewrite good_after. destruct sep; [congruence | reflexivity]. }
  rewrite (extract_token _ EmptyString sep key rem Hgood eq_refl
             Hsep Hkey Hkeyne Hrem).
  unfold getline. rewrite good_after. cbn [rdbuf].
  apply empty_false in Hkeyne. rewrite Hkeyne. cbn [negb andb].
  destruct rem as [|c rem'].
  - reflexivity.
  - cbn [empty negb]. apply find_none_no_char in Hnl. rewrite Hnl.
    rewrite <- (strip_space_erase (String c rem')). reflexivity.
Qed.

End DispatchFacts.

(** ** The protocol, line by line *)

Module ProtocolFacts.
Import Str StrFacts IStream Codec CodecFacts ParseFacts Server DispatchFacts.

Lemma all_chars_app (p : ascii -> bool) (a b : string) :
  all_chars p (a +:+ b) = all_chars p a && all_chars p b.
Proof.
  induction a as [|c a IH]; simpl; [reflexivity|]. now rewrite IH, andb_assoc.
Qed.

Lemma all_space_boundary (sep rest : string) :
  all_space sep = true -> boundary rest = true -> boundary (sep +:+ rest) = true.
Proof.
  intros Hsep Hrest. destruct sep as [|c sep]; [exact Hrest|].
  unfold all_space in Hsep. simpl in Hsep. apply andb_prop in Hsep as [Hc _].
  exact Hc.
Qed.

(** [SET] and nothing but whitespace after it. *)
Lemma process_set_no_key (s : KVStore.t) (pre sep : string) :
  all_space pre = true -> all_space sep = true ->
  process_line s (pre +:+ "SET" +:+ sep) =
  (s, "ERROR: SET requires key and value" +:+ nl).
Proof.
  intros Hpre Hsep. unfold process_line.
  rewrite (extract_token (of_string _) EmptyString pre "SET" sep eq_refl eq_refl
             Hpre eq_refl ltac:(discriminate)
             ltac:(rewrite <- (StrFacts.app_empty_r sep);
                   now apply all_space_boundary)).
  cbn [String.eqb Ascii.eqb Bool.eqb andb].
  pose proof (extract_nothing
                {| rdbuf := sep; eofbit := empty sep; failbit := false |}
                EmptyString (or_intror Hsep)) as Hkey.
  destruct (extract _ EmptyString) as [iss2 key]. simpl in Hkey. subst key.
  now destruct (getline iss2 EmptyString) as [iss3 value].
Qed.

(** Every line whose first token is [SET] has the shape [set_shape], with
    its second token, if any, as the key. *)
Lemma set_shape_covers (line : string) (ts : list string) :
  tokens line = "SET" :: ts ->
  exists pre sep rem, set_shape line pre sep (hd EmptyString ts) rem.
Proof.
  intros H.
  destruct (tokens_cons_shape _ _ _ H) as (pre & rest & -> & Hpre & _ & _ & Hb & Hts).
  destruct ts as [|key more]; simpl.
  - exists pre, rest, EmptyString. unfold set_shape. simpl.
    rewrite !StrFacts.app_empty_r.
    repeat split; try assumption. now apply tokens_nil_all_space.
  - destruct (tokens_cons_shape _ _ _ Hts)
      as (sep & rem & -> & Hsep & Hkey & Hne & Hrem & _).
    exists pre, sep, rem. unfold set_shape.
    repeat split; try assumption.
    destruct key as [|c key]; [congruence|]. simpl.
    intros ->. simpl in Hb. unfold no_space in Hkey. simpl in Hkey.
    rewrite Hb in Hkey. discriminate.
Qed.

Lemma strip_space_empty_no_newline (rem : string) :
  strip_space rem = EmptyString -> no_char NL rem = true.
Proof.
  destruct rem as [|c rem]; [reflexivity|]. simpl.
  destruct (Ascii.eqb c SP) eqn:Hc; [|discriminate].
  intros ->. apply Ascii.eqb_eq in Hc. now subst c.
Qed.

(** A line of the shape [set_shape] whose remainder has no terminator. *)
Lemma process_set_shape (s : KVStore.t) (line pre sep key rem : string) :
  set_shape line pre sep key rem -> no_char NL rem = true ->
  process_line s line =
  if negb (empty key) && negb (empty (strip_space rem))
  then (KVStore.set key (strip_space rem) s, "OK" +:+ nl)
  else (s, "ERROR: SET requires key and value" +:+ nl).
Proof.
  intros (-> & Hpre & Hsep & Hkey & Hrem & Hcase) Hnl.
  destruct key as [|c key]; simpl in Hcase.
  - subst rem. simpl. rewrite StrFacts.app_empty_r.
    now apply process_set_no_key.
  - rewrite (process_set s _ pre sep (String c key) rem eq_refl); try assumption.
    + reflexivity.
    + discriminate.
Qed.

(** A protocol fault is answered by one of the four error lines and
    leaves the store as it is. *)
Lemma malformed_response (s : KVStore.t) (line : string) :
  malformed line ->
  exists text,
    In text ["ERROR: SET requires key and value"; "ERROR: GET requires key";
             "ERROR: DEL requires key"; "ERROR: Unknown command"] /\
    process_line s line = (s, text +:+ nl).
Proof.
  intros [l Hcmd | l cmd Hcmd Hts | l pre sep key rem Hshape Hstrip].
  - exists "ERROR: Unknown command". split; [simpl; tauto|].
    now apply process_unknown.
  - rewrite (process_no_key s l cmd Hcmd Hts).
    simpl in Hcmd.
    destruct Hcmd as [<-|[<-|[<-|[]]]];
      [exists "ERROR: SET requires key and value"
      |exists "ERROR: GET requires key"
      |exists "ERROR: DEL requires key"];
      (split; [simpl; tauto | reflexivity]).
  - exists "ERROR: SET requires key and value". split; [simpl; tauto|].
    rewrite (process_set_shape s l pre sep key rem Hshape
               (strip_space_empty_no_newline _ Hstrip)).
    rewrite Hstrip. simpl. now rewrite andb_false_r.
Qed.

(** C1, as the handler has it: the command word is [DEL]. For every line
    whose first token is [DEL] followed by a key token, the key is not
    empty, the store is the one left by [remove] of that key, and the
    response is [DELETED] when the key was in the map and [NOT_FOUND] when
    it was not; a line whose only token is [DEL] is answered
    [ERROR: DEL requires key] and the store is left as it was. *)
Theorem del_line_dispatch (s : KVStore.t) (line : string) :
  (forall key more,
      tokens line = "DEL" :: key :: more ->
      key <> EmptyString /\
      process_line s line =
      (snd (KVStore.remove key s),
       match KVStore.data_ s !! key with
       | Some _ => "DELETED" +:+ nl
       | None => "NOT_FOUND" +:+ nl
       end)) /\
  (tokens line = ["DEL"] ->
   process_line s line = (s, "ERROR: DEL requires key" +:+ nl)).
Proof.
  split.
  - intros key more H. split.
    + destruct (tokens_cons_shape _ _ _ H) as (_ & rest & _ & _ & _ & _ & _ & Hts).
      now destruct (tokens_cons_shape _ _ _ Hts) as (_ & _ & _ & _ & _ & Hne & _).
    + rewrite (process_del s line key more H). unfold KVStore.remove.
      now destruct (KVStore.data_ s !! key).
  - intros H. rewrite (process_no_key s line "DEL"); [reflexivity | | exact H].
    simpl. tauto.
Qed.

Lemma del_line_dispatch_witness :
  let s := KVStore.set "k" "v" KVStore.empty_store in
  process_line s "DEL k extra" = (snd (KVStore.remove "k" s), "DELETED" +:+ nl) /\
  process_line s "DEL" = (s, "ERROR: DEL requires key" +:+ nl).
Proof.
  intros s. split.
  - exact (proj2 (proj1 (del_line_dispatch s "DEL k extra") "k" ["extra"] eq_refl)).
  - exact (proj2 (del_line_dispatch s "DEL") eq_refl).
Defined.

(** C1 as stated fails: the first token of [DELETE k] is [DELETE] and its
    key is in the store, yet the response is not [DELETED] and the key is
    still there; and [DELETE] alone is not answered
    [ERROR: DEL requires key]. *)
Lemma delete_word_is_unknown :
  let s := KVStore.set "k" "v" KVStore.empty_store in
  tokens "DELETE k" = ["DELETE"; "k"] /\
  snd (process_line s "DELETE k") = "ERROR: Unknown command" +:+ nl /\
  snd (process_line s "DELETE k") <> "DELETED" +:+ nl /\
  KVStore.data_ (fst (process_line s "DELETE k")) !! "k" = Some "v" /\
  tokens "DELETE" = ["DELETE"] /\
  snd (process_line s "DELETE") <> "ERROR: DEL requires key" +:+ nl.
Proof.
  intros s. repeat split; try reflexivity; vm_compute; discriminate.
Qed.



(** C6. For every line whose first token is [GET] followed by a key: on
    a store that maps the key to the empty string and on a store without
    the key the response is the same, [NOT_FOUND]. *)
Theorem get_empty_value_is_not_found
  (s1 s2 : KVStore.t) (line key : string) (more : list string) :
  tokens line = "GET" :: key :: more ->
  KVStore.data_ s1 !! key = Some EmptyString ->
  KVStore.data_ s2 !! key = None ->
  snd (process_line s1 line) = "NOT_FOUND" +:+ nl /\
  snd (process_line s2 line) = "NOT_FOUND" +:+ nl.
Proof.
  intros H H1 H2. rewrite !(process_get _ line key more H), H1, H2. now split.
Qed.

Lemma get_empty_value_is_not_found_witness :
  snd (process_line (KVStore.set "k" "" KVStore.empty_store) "GET k")
  = "NOT_FOUND" +:+ nl /\
  snd (process_line KVStore.empty_store "GET k") = "NOT_FOUND" +:+ nl.
Proof.
  exact (get_empty_value_is_not_found
           (KVStore.set "k" "" KVStore.empty_store) KVStore.empty_store
           "GET k" "k" [] eq_refl eq_refl eq_refl).
Defined.

(** C10. For every line whose first token is [GET] or [DEL] and whose
    second token is a key, whatever follows the key is ignored. The
    handler dispatches the operation for that key alone: a [GET] line
    leaves the store that [get] of the key returns and answers with the
    value [get] returned, or [NOT_FOUND] when it is empty; a [DEL] line
    leaves the store that [remove] of the key returns and answers
    [DELETED] or [NOT_FOUND] as [remove] returned [true] or [false]. The
    store and the response are those of any line that holds the command
    and the key alone. *)
Theorem extra_tokens_ignored
  (s : KVStore.t) (line key : string) (more : list string) :
  (tokens line = "GET" :: key :: more ->
   process_line s line =
   (snd (KVStore.get key s),
    if empty (fst (KVStore.get key s)) then "NOT_FOUND" +:+ nl
    else fst (KVStore.get key s) +:+ nl) /\
   forall line', tokens line' = ["GET"; key] ->
                 process_line s line = process_line s line') /\
  (tokens line = "DEL" :: key :: more ->
   process_line s line =
   (snd (KVStore.remove key s),
    if fst (KVStore.remove key s) then "DELETED" +:+ nl
    else "NOT_FOUND" +:+ nl) /\
   forall line', tokens line' = ["DEL"; key] ->
                 process_line s line = process_line s line').
Proof.
  split; intros H; split.
  - rewrite (process_get s line key more H). unfold KVStore.get.
    now destruct (KVStore.data_ s !! key) as [[|c v]|].
  - intros line' H'.
    now rewrite (process_get s line key more H), (process_get s line' key [] H').
  - apply (process_del s line key more H).
  - intros line' H'.
    now rewrite (process_del s line key more H), (process_del s line' key [] H').
Qed.

Lemma extra_tokens_ignored_witness :
  let s := KVStore.set "k" "v" KVStore.empty_store in
  (process_line s "GET k and more" = (s, "v" +:+ nl) /\
   process_line s "GET k and more" = process_line s " GET  k") /\
  (process_line s "DEL k  x" = (KVStore.empty_store, "DELETED" +:+ nl) /\
   process_line s "DEL k  x" = process_line s "DEL k").
Proof.
  intros s. split.
  - destruct (proj1 (extra_tokens_ignored s "GET k and more" "k" ["and"; "more"])
                eq_refl) as [Hres Hsame].
    exact (conj Hres (Hsame " GET  k" eq_refl)).
  - destruct (proj2 (extra_tokens_ignored s "DEL k  x" "k" ["x"]) eq_refl)
      as [Hres Hsame].
    exact (conj Hres (Hsame "DEL k" eq_refl)).
Defined.

End ProtocolFacts.

(** ** The handler *)

Module HandlerFacts.
Import Str StrFacts IStream Codec CodecFacts ParseFacts Server DispatchFacts
       ProtocolFacts.

Section Peer.

Variable write_ret : nat -> Z.

(** The line loop, unfolded once. *)
Lemma lines_loop_step (c : conn) :
  lines_loop write_ret c =
  match find (buffer c) NL with
  | None => Continue c
  | Some pos =>
      let line := substr_0 (buffer c) pos in
      let buffer' := erase_0 (buffer c) (pos + 1) in
      if empty line then
        lines_loop write_ret
          {| store_ := store_ c; buffer := buffer'; sent := sent c |}
      else
        let '(store', response) := process_line (store_ c) line in
        let bytes_written := write_ret (List.length (sent c)) in
        let c' := {| store_ := store'; buffer := buffer';
                     sent := sent c ++ [(response, bytes_written)] |} in
        if (bytes_written <? 0)%Z then Return c'
        else lines_loop write_ret c'
  end.
Proof.
  rewrite lines_loop_equation_1.
  destruct (inspect (find (buffer c) NL)) as [[p|] e].
  - rewrite lines_loop_clause_1_equation_1, e. reflexivity.
  - rewrite lines_loop_clause_1_equation_2, e. reflexivity.
Qed.

(** One turn of the loop on a buffer that starts with a complete,
    non-empty line. *)
Lemma lines_loop_line (c : conn) (line rest : string) :
  buffer c = line +:+ String NL rest ->
  line <> EmptyString -> no_char NL line = true ->
  lines_loop write_ret c =
  let c' := {| store_ := fst (process_line (store_ c) line);
               buffer := rest;
               sent := sent c ++ [(snd (process_line (store_ c) line),
                                   write_ret (List.length (sent c)))] |} in
  if (write_ret (List.length (sent c)) <? 0)%Z then Return c'
  else lines_loop write_ret c'.
Proof.
  intros Hbuf Hne Hnl. rewrite lines_loop_step, Hbuf, (find_line _ _ Hnl).
  cbv zeta. rewrite substr_0_line, erase_0_line.
  apply empty_false in Hne. rewrite Hne.
  now destruct (process_line (store_ c) line).
Qed.

(** An empty line is dropped without a response. *)
Lemma empty_line_skipped (c : conn) (rest : string) :
  buffer c = String NL rest ->
  lines_loop write_ret c =
  lines_loop write_ret {| store_ := store_ c; buffer := rest; sent := sent c |}.
Proof. intros Hbuf. rewrite lines_loop_step, Hbuf. reflexivity. Qed.

(** The handler answers the lines that [extract_lines] gives, in their
    order, and keeps the buffer that [extract_lines] leaves. *)
Lemma lines_loop_respond (c : conn) :
  match lines_loop write_ret c with
  | Continue c' =>
      respond write_ret (fst (extract_lines (buffer c))) (store_ c) (sent c)
      = (store_ c', sent c', true)
      /\ buffer c' = snd (extract_lines (buffer c))
  | Return c' =>
      respond write_ret (fst (extract_lines (buffer c))) (store_ c) (sent c)
      = (store_ c', sent c', false)
  end.
Proof.
  remember (String.length (buffer c)) as n eqn:Hn. revert c Hn.
  induction n as [n IH] using lt_wf_ind. intros c ->.
  rewrite lines_loop_step, extract_lines_step.
  destruct (find (buffer c) NL) as [p|] eqn:Hfind; [|now split].
  cbv zeta. pose proof (find_erase_shorter _ _ _ Hfind) as Hlt.
  destruct (empty (substr_0 (buffer c) p)).
  - exact (IH _ Hlt {| store_ := store_ c; buffer := erase_0 (buffer c) (p + 1);
                       sent := sent c |} eq_refl).
  - destruct (extract_lines (erase_0 (buffer c) (p + 1))) as [lines rest] eqn:Hext.
    cbn [fst snd respond].
    destruct (process_line (store_ c) (substr_0 (buffer c) p)) as [store' response].
    destruct (write_ret (List.length (sent c)) <? 0)%Z; [reflexivity|].
    specialize (IH _ Hlt {| store_ := store'; buffer := erase_0 (buffer c) (p + 1);
                            sent := sent c ++ [(response,
                                                write_ret (List.length (sent c)))] |}
                   eq_refl).
    cbn [buffer store_ sent] in IH. now rewrite Hext in IH.
Qed.


(** C8. When the write of a response fails, the line loop stops there:
    the handler returns with the rest of the buffer as it was, whatever
    lines it holds, and with no write after the failed one; and when the
    line loop returns, the handler ends without another [read]. *)
Theorem write_failure_returns :
  (forall (c : conn) (line rest : string),
      buffer c = line +:+ String NL rest ->
      line <> EmptyString -> no_char NL line = true ->
      (write_ret (List.length (sent c)) < 0)%Z ->
      lines_loop write_ret c =
      Return {| store_ := fst (process_line (store_ c) line);
                buffer := rest;
                sent := sent c ++ [(snd (process_line (store_ c) line),
                                    write_ret (List.length (sent c)))] |}) /\
  (forall (c c' : conn) (data : string) (reads : list read_result),
      data <> EmptyString ->
      lines_loop write_ret
        {| store_ := store_ c; buffer := buffer c +:+ c_str data;
           sent := sent c |} = Return c' ->
      read_loop write_ret (Bytes data :: reads) c = (c', reads)).
Proof.
  split.
  - intros c line rest Hbuf Hne Hnl Hret.
    rewrite (lines_loop_line c line rest Hbuf Hne Hnl). cbv zeta.
    apply Z.ltb_lt in Hret. now rewrite Hret.
  - intros c c' data reads Hne Hloop. cbn [read_loop bytes_read].
    destruct data as [|x data]; [congruence|].
    cbn [String.length]. rewrite Hloop.
    destruct (Z.of_nat (S (String.length data)) <=? 0)%Z eqn:E; [|reflexivity].
    apply Z.leb_le in E. lia.
Qed.

End Peer.



Lemma write_failure_returns_witness :
  read_loop (fun _ => (-1)%Z)
    [Bytes ("GET a" +:+ nl +:+ "SET a 1" +:+ nl); Bytes ("GET a" +:+ nl)]
    {| store_ := KVStore.empty_store; buffer := EmptyString; sent := [] |}
  = ({| store_ := KVStore.empty_store; buffer := "SET a 1" +:+ nl;
        sent := [("NOT_FOUND" +:+ nl, (-1)%Z)] |},
     [Bytes ("GET a" +:+ nl)]).
Proof.
  destruct (write_failure_returns (fun _ => (-1)%Z)) as [Hline Hread].
  apply Hread; [discriminate|].
  refine (Hline {| store_ := KVStore.empty_store;
                   buffer := "GET a" +:+ String NL ("SET a 1" +:+ nl);
                   sent := [] |}
            "GET a" ("SET a 1" +:+ nl) eq_refl _ eq_refl _).
  - discriminate.
  - simpl. lia.
Defined.

(** X21. Reassembly of the deliveries that hold no zero byte in their
    first fragment. For every buffer and every two fragments, the first of
    them free of ['\0']: feeding the fragments one after the other gives
    the same lines in the same order, and leaves the same buffer, as
    feeding their concatenation at once. Feeding [SE] and then [T k v] with
    its terminator gives the one line [SET k v], as feeding the whole at
    once does, and that line sets [k] to [v]. *)
Theorem feed_split_reassembly :
  (forall buffer a b : string,
      no_char NUL a = true -> feed2 buffer a b = feed buffer (a +:+ b)) /\
  feed2 EmptyString "SE" ("T k v" +:+ nl) = (["SET k v"], EmptyString) /\
  feed EmptyString ("SET k v" +:+ nl) = (["SET k v"], EmptyString) /\
  (forall s, process_line s "SET k v" = (KVStore.set "k" "v" s, "OK" +:+ nl)).
Proof.
  split; [exact feed2_feed|].
  split; [reflexivity|]. split; [reflexivity|].
  intros s.
  rewrite (process_set_shape s "SET k v" "" " " "k" " v"); [reflexivity| |reflexivity].
  unfold set_shape. repeat split. discriminate.
Qed.

Lemma feed_split_reassembly_witness :
  feed2 "GE" ("T a" +:+ nl +:+ "SE") ("T b 1" +:+ nl)
  = feed "GE" (("T a" +:+ nl +:+ "SE") +:+ ("T b 1" +:+ nl)).
Proof.
  exact (proj1 feed_split_reassembly "GE" ("T a" +:+ nl +:+ "SE")
           ("T b 1" +:+ nl) eq_refl).
Defined.

(** C2. The handler at the input where it breaks the claim. The chunk is
    ended at [bytes_read] and then appended with [buffer += chunk], which
    stops at the first zero byte, so the bytes that follow a zero byte in a
    delivery are lost and the lines depend on how the bytes were cut:
    [a\0] and then [b] with its terminator give the line [ab], the same
    four bytes in one delivery give no line and leave [a] in the buffer.
    In the same way a [SET] line, a zero byte and a [GET] line read at once
    lose the [GET]: one response is written, where the two commands read
    apart are both answered. *)
Theorem feed_split_nul_differs :
  let a := String "a" (String NUL EmptyString) in
  let b := "b" +:+ nl in
  feed2 EmptyString a b = (["ab"], EmptyString) /\
  feed EmptyString (a +:+ b) = ([], "a") /\
  fst (feed2 EmptyString a b) <> fst (feed EmptyString (a +:+ b)) /\
  let full (n : nat) := 100%Z in
  let set_line := "SET k v" +:+ nl in
  let get_line := "GET k" +:+ nl in
  map fst (sent (fst (handle_client full KVStore.empty_store
                        [Bytes (set_line +:+ String NUL get_line)])))
  = ["OK" +:+ nl] /\
  map fst (sent (fst (handle_client full KVStore.empty_store
                        [Bytes (set_line +:+ String NUL EmptyString);
                         Bytes get_line])))
  = ["OK" +:+ nl; "v" +:+ nl].
Proof.
  intros a b. split; [reflexivity|]. split; [reflexivity|].
  split; [vm_compute; discriminate|].
  intros full set_line get_line. split; vm_compute; reflexivity.
Qed.

(** The end-to-end scenario of the specification, with the handler's
    command word for deletion: four commands in three deliveries, every
    write accepted in full. *)
Example session :
  let full (n : nat) := 100%Z in
  let '(c, unread) :=
    handle_client full KVStore.empty_store
      [Bytes ("SET a 1" +:+ nl +:+ "GE"); Bytes ("T a" +:+ nl);
       Bytes ("DEL a" +:+ nl +:+ "GET a" +:+ nl)] in
  map fst (sent c) = ["OK" +:+ nl; "1" +:+ nl; "DELETED" +:+ nl; "NOT_FOUND" +:+ nl]
  /\ KVStore.data_ (store_ c) = ∅ /\ buffer c = EmptyString /\ unread = [].
Proof. vm_compute. repeat split. Qed.

End HandlerFacts.

(** ** More on the store: how its operations compose *)

Module StoreLaws.
Import KVStore.

Lemma store_eq (s1 s2 : t) : data_ s1 = data_ s2 -> s1 = s2.
Proof. destruct s1, s2; simpl; congruence. Qed.

(** X1. A second [set] of a key replaces the first: the store is the one
    a single [set] of the later value gives, and [get] returns the later
    value. *)
Theorem set_overwrites (s : t) (k v1 v2 : string) :
  set k v2 (set k v1 s) = set k v2 s /\
  fst (get k (set k v2 (set k v1 s))) = v2.
Proof.
  assert (H : set k v2 (set k v1 s) = set k v2 s).
  { apply store_eq. unfold set. simpl. apply insert_insert_eq. }
  split; [exact H|]. rewrite H. unfold get, set. simpl.
  now rewrite lookup_insert_eq.
Qed.

(** X2. Operations on two different keys commute: two [set]s, a [set] and
    a [remove], and two [remove]s give the same store and the same results
    in either order. *)
Theorem distinct_keys_commute (s : t) (k1 k2 v1 v2 : string) :
  k1 <> k2 ->
  set k1 v1 (set k2 v2 s) = set k2 v2 (set k1 v1 s) /\
  remove k1 (set k2 v2 s) = (fst (remove k1 s), set k2 v2 (snd (remove k1 s))) /\
  snd (remove k1 (snd (remove k2 s))) = snd (remove k2 (snd (remove k1 s))) /\
  fst (remove k1 (snd (remove k2 s))) = fst (remove k1 s).
Proof.
  intros Hne. repeat split.
  - apply store_eq. unfold set. simpl. now apply insert_insert_ne.
  - unfold remove, set. simpl. rewrite lookup_insert_ne by congruence.
    destruct (data_ s !! k1); simpl; [|reflexivity].
    f_equal. apply store_eq. simpl. now apply delete_insert_ne.
  - apply store_eq. apply map_eq. intros k.
    rewrite !KVStoreFacts.remove_lookup.
    repeat case_decide; reflexivity.
  - rewrite !KVStoreFacts.remove_result, KVStoreFacts.remove_lookup.
    case_decide; [congruence | reflexivity].
Qed.

Lemma distinct_keys_commute_witness :
  let s := set "c" "3" empty_store in
  set "a" "1" (set "b" "2" s) = set "b" "2" (set "a" "1" s) /\
  remove "c" (set "b" "2" s) = (fst (remove "c" s), set "b" "2" (snd (remove "c" s))) /\
  snd (remove "c" (snd (remove "b" s))) = snd (remove "b" (snd (remove "c" s))) /\
  fst (remove "c" (snd (remove "b" s))) = fst (remove "c" s).
Proof.
  intros s.
  assert (Hab : "a" <> "b") by discriminate.
  assert (Hcb : "c" <> "b") by discriminate.
  exact (conj (proj1 (distinct_keys_commute s "a" "b" "1" "2" Hab))
              (proj2 (distinct_keys_commute s "c" "b" "1" "2" Hcb))).
Defined.

(** X3. On a store without the key, [set] followed by [remove] returns
    [true] and gives back the store as it was. *)
Theorem remove_undoes_set (s : t) (k v : string) :
  data_ s !! k = None -> remove k (set k v s) = (true, s).
Proof.
  intros H. unfold remove, set. simpl. rewrite lookup_insert_eq. f_equal.
  apply store_eq. simpl. now apply delete_insert_id.
Qed.

Lemma remove_undoes_set_witness :
  remove "a" (set "a" "1" (set "b" "2" empty_store))
  = (true, set "b" "2" empty_store).
Proof.
  exact (remove_undoes_set (set "b" "2" empty_store) "a" "1" eq_refl).
Defined.

End StoreLaws.

(** ** More on the dispatch of one line *)

Module SessionFacts.
Import Str StrFacts IStream Codec ParseFacts Server DispatchFacts ProtocolFacts
       Invariants.

Lemma app_nl_inj (a b : string) : a +:+ nl = b +:+ nl -> a = b.
Proof.
  revert b. induction a as [|x a IH]; intros [|y b] H; simpl in H.
  - reflexivity.
  - destruct b; discriminate.
  - destruct a; discriminate.
  - injection H as -> H. now rewrite (IH b H).
Qed.

Lemma no_char_strip_space (rem : string) :
  no_char NL rem = true -> no_char NL (strip_space rem) = true.
Proof.
  destruct rem as [|c rem]; [reflexivity|]. unfold no_char. simpl.
  intros H. destruct (Ascii.eqb c SP); [|exact H].
  now apply andb_prop in H as [_ H].
Qed.

Lemma set_shape_rem_no_newline (line pre sep key rem : string) :
  set_shape line pre sep key rem -> no_char NL line = true ->
  no_char NL rem = true.
Proof.
  intros (-> & _) Hnl. unfold no_char in *. rewrite !all_chars_app in Hnl.
  repeat (apply andb_prop in Hnl as [_ Hnl]). exact Hnl.
Qed.

(** What a line without a terminator can do: an error response, a [SET]
    of a token key to a non-empty value, a [GET] with a key or a [DEL] with
    a key. *)
Lemma process_line_cases (s : KVStore.t) (line : string) :
  no_char NL line = true ->
  (exists text,
      In text ["ERROR: SET requires key and value"; "ERROR: GET requires key";
               "ERROR: DEL requires key"; "ERROR: Unknown command"] /\
      process_line s line = (s, text +:+ nl))
  \/ (exists key value,
         key <> EmptyString /\ no_space key = true /\
         value <> EmptyString /\ no_char NL value = true /\
         process_line s line = (KVStore.set key value s, "OK" +:+ nl))
  \/ (exists key more, tokens line = "GET" :: key :: more)
  \/ (exists key more, tokens line = "DEL" :: key :: more).
Proof.
  intros Hnl. destruct (tokens line) as [|t ts] eqn:Ht.
  - left. apply malformed_response. apply unknown_command. rewrite Ht. simpl.
    intros [H|[H|[H|[]]]]; discriminate.
  - destruct (decide (t = "SET")) as [->|Hset].
    { destruct (set_shape_covers line ts Ht) as (pre & sep & rem & Hshape).
      pose proof (set_shape_rem_no_newline _ _ _ _ _ Hshape Hnl) as Hrem.
      rewrite (process_set_shape s line pre sep _ rem Hshape Hrem).
      destruct (negb (empty (hd EmptyString ts)) && negb (empty (strip_space rem)))
        eqn:E.
      - right. left. exists (hd EmptyString ts), (strip_space rem).
        apply andb_prop in E as [Hk Hv].
        apply negb_true_iff in Hk, Hv. apply empty_false in Hk, Hv.
        destruct Hshape as (_ & _ & _ & Hkey & _).
        repeat split; try assumption. now apply no_char_strip_space.
      - left. exists "ERROR: SET requires key and value". simpl. tauto. }
    destruct (decide (t = "GET")) as [->|Hget].
    { destruct ts as [|key more]; [|right; right; left; eauto].
      left. apply malformed_response. apply (missing_key line "GET"); [|exact Ht].
      simpl. tauto. }
    destruct (decide (t = "DEL")) as [->|Hdel].
    { destruct ts as [|key more]; [|right; right; right; eauto].
      left. apply malformed_response. apply (missing_key line "DEL"); [|exact Ht].
      simpl. tauto. }
    left. apply malformed_response. apply unknown_command. rewrite Ht. simpl.
    intros [H|[H|[H|[]]]]; congruence.
Qed.

(** X4. [GET] of a key that the store maps to a non-empty value answers
    with that value followed by the terminator, and leaves the store as it
    is. *)
Theorem get_hit (s : KVStore.t) (line key v : string) (more : list string) :
  tokens line = "GET" :: key :: more ->
  KVStore.data_ s !! key = Some v -> v <> EmptyString ->
  process_line s line = (s, v +:+ nl).
Proof.
  intros H Hv Hne. rewrite (process_get s line key more H), Hv.
  destruct v; [congruence | reflexivity].
Qed.

Lemma get_hit_witness :
  process_line (KVStore.set "k" "some value" KVStore.empty_store) "GET k"
  = (KVStore.set "k" "some value" KVStore.empty_store, "some value" +:+ nl).
Proof.
  refine (get_hit (KVStore.set "k" "some value" KVStore.empty_store)
            "GET k" "k" "some value" [] eq_refl eq_refl _).
  discriminate.
Defined.

(** X5. The error texts. A line whose first token is none of [SET],
    [GET], [DEL] (a line of whitespace included; the comparison is
    case-sensitive) is answered [ERROR: Unknown command]; [GET] alone is
    answered [ERROR: GET requires key]; [SET] alone is answered
    [ERROR: SET requires key and value]. The store is unchanged each
    time. *)
Theorem error_texts (s : KVStore.t) (line : string) :
  (~ In (hd EmptyString (tokens line)) commands ->
   process_line s line = (s, "ERROR: Unknown command" +:+ nl)) /\
  (tokens line = ["GET"] ->
   process_line s line = (s, "ERROR: GET requires key" +:+ nl)) /\
  (tokens line = ["SET"] ->
   process_line s line = (s, "ERROR: SET requires key and value" +:+ nl)).
Proof.
  repeat split.
  - apply process_unknown.
  - intros H. rewrite (process_no_key s line "GET"); [reflexivity| |exact H].
    simpl. tauto.
  - intros H. rewrite (process_no_key s line "SET"); [reflexivity| |exact H].
    simpl. tauto.
Qed.

Lemma error_texts_witness :
  let s := KVStore.set "k" "v" KVStore.empty_store in
  process_line s "get k" = (s, "ERROR: Unknown command" +:+ nl) /\
  process_line s "  " = (s, "ERROR: Unknown command" +:+ nl) /\
  process_line s " GET " = (s, "ERROR: GET requires key" +:+ nl) /\
  process_line s "SET" = (s, "ERROR: SET requires key and value" +:+ nl).
Proof.
  intros s.
  assert (H1 : ~ In (hd EmptyString (tokens "get k")) commands).
  { simpl. intros [H|[H|[H|[]]]]; discriminate. }
  assert (H2 : ~ In (hd EmptyString (tokens "  ")) commands).
  { simpl. intros [H|[H|[H|[]]]]; discriminate. }
  exact (conj (proj1 (error_texts s "get k") H1)
           (conj (proj1 (error_texts s "  ") H2)
              (conj (proj1 (proj2 (error_texts s " GET ")) eq_refl)
                    (proj2 (proj2 (error_texts s "SET")) eq_refl)))).
Defined.

(** X6. Only [SET] and [DEL] write: a line whose first token is neither
    leaves the store as it is, whatever follows. *)
Theorem only_set_and_del_write (s : KVStore.t) (line : string) :
  hd EmptyString (tokens line) <> "SET" ->
  hd EmptyString (tokens line) <> "DEL" ->
  fst (process_line s line) = s.
Proof.
  intros Hset Hdel. destruct (tokens line) as [|t ts] eqn:Ht.
  - rewrite process_unknown; [reflexivity|]. rewrite Ht. simpl.
    intros [H|[H|[H|[]]]]; discriminate.
  - simpl in Hset, Hdel. destruct (decide (t = "GET")) as [->|Hget].
    + destruct ts as [|key more].
      * rewrite (process_no_key s line "GET"); [reflexivity| |exact Ht].
        simpl. tauto.
      * now rewrite (process_get s line key more Ht).
    + rewrite process_unknown; [reflexivity|]. rewrite Ht. simpl.
      intros [H|[H|[H|[]]]]; congruence.
Qed.

Lemma only_set_and_del_write_witness :
  fst (process_line (KVStore.set "k" "v" KVStore.empty_store) "GET k 1 2")
  = KVStore.set "k" "v" KVStore.empty_store.
Proof.
  refine (only_set_and_del_write (KVStore.set "k" "v" KVStore.empty_store)
            "GET k 1 2" _ _); discriminate.
Defined.

(** X7. Round trip through the protocol: after a [SET] line with a key
    and a non-empty value, a [GET] line for that key answers with exactly
    the value stored, the remainder of the [SET] line after the key without
    one leading space. *)
Theorem set_then_get_line
  (s : KVStore.t) (line pre sep key rem line' : string) (more : list string) :
  set_shape line pre sep key rem -> no_char NL line = true ->
  key <> EmptyString -> strip_space rem <> EmptyString ->
  tokens line' = "GET" :: key :: more ->
  snd (process_line s line) = "OK" +:+ nl /\
  snd (process_line (fst (process_line s line)) line') = strip_space rem +:+ nl.
Proof.
  intros Hshape Hnl Hkey Hval Hget.
  rewrite (process_set_shape s line pre sep key rem Hshape
             (set_shape_rem_no_newline _ _ _ _ _ Hshape Hnl)).
  apply empty_false in Hkey. rewrite Hkey.
  destruct (strip_space rem) as [|c v] eqn:Hv; [congruence|].
  cbn [empty negb andb fst snd]. split; [reflexivity|].
  rewrite (process_get _ line' key more Hget). unfold KVStore.set. cbn [KVStore.data_ snd].
  rewrite lookup_insert_eq. reflexivity.
Qed.

Lemma set_then_get_line_witness :
  snd (process_line KVStore.empty_store "SET name  Ada L") = "OK" +:+ nl /\
  snd (process_line (fst (process_line KVStore.empty_store "SET name  Ada L"))
         "GET name")
  = " Ada L" +:+ nl.
Proof.
  refine (set_then_get_line KVStore.empty_store "SET name  Ada L"
            "" " " "name" "  Ada L" "GET name" [] _ eq_refl _ _ eq_refl).
  - unfold set_shape. repeat split. discriminate.
  - discriminate.
  - discriminate.
Defined.



(** For a line without a terminator in it, on a store whose keys are
    tokens and whose values are non-empty and free of terminators: the
    store after the line is of that kind again, and the response is exactly
    one terminated line. *)
Lemma process_line_keeps_wf (s : KVStore.t) (line : string) :
  wf_store s -> no_char NL line = true ->
  wf_store (fst (process_line s line)) /\ one_line (snd (process_line s line)).
Proof.
  intros Hwf Hnl.
  destruct (process_line_cases s line Hnl)
    as [(text & Hin & ->) | [(key & value & Hk & Hks & Hv & Hvn & ->)
       | [(key & more & H) | (key & more & H)]]]; cbn [fst snd].
  - split; [exact Hwf|]. exists text. split; [reflexivity|].
    simpl in Hin. destruct Hin as [<-|[<-|[<-|[<-|[]]]]]; reflexivity.
  - split; [|exists "OK"; now split].
    intros k v. unfold KVStore.set. cbn [KVStore.data_].
    rewrite lookup_insert. case_decide.
    + intros [= <-]. subst k. now repeat split.
    + apply Hwf.
  - rewrite (process_get s line key more H). cbn [fst snd].
    split; [exact Hwf|].
    destruct (KVStore.data_ s !! key) as [[|c v]|] eqn:E;
      try (exists "NOT_FOUND"; now split).
    exists (String c v). split; [reflexivity|]. now apply (Hwf key).
  - rewrite (process_del s line key more H). cbn [fst snd]. split.
    + intros k v. rewrite KVStoreFacts.remove_lookup.
      case_decide; [discriminate | apply Hwf].
    + destruct (fst (KVStore.remove key s));
        [exists "DELETED" | exists "NOT_FOUND"]; now split.
Qed.

(** X9. A [GET] line with a key is answered [NOT_FOUND] exactly when the
    key is absent, or is mapped to the empty string, or is mapped to the
    text [NOT_FOUND] itself. *)
Theorem not_found_means
  (s : KVStore.t) (line key : string) (more : list string) :
  tokens line = "GET" :: key :: more ->
  (snd (process_line s line) = "NOT_FOUND" +:+ nl <->
   KVStore.data_ s !! key = None \/
   KVStore.data_ s !! key = Some EmptyString \/
   KVStore.data_ s !! key = Some "NOT_FOUND").
Proof.
  intros H. rewrite (process_get s line key more H). cbn [snd].
  destruct (KVStore.data_ s !! key) as [[|c v]|].
  - split; [tauto | reflexivity].
  - split.
    + intros E. right. right. f_equal. now apply app_nl_inj.
    + intros [E|[E|E]]; try discriminate. now injection E as -> ->.
  - split; [tauto | reflexivity].
Qed.

Lemma not_found_means_witness :
  snd (process_line
         (fst (process_line KVStore.empty_store "SET k NOT_FOUND")) "GET k")
  = "NOT_FOUND" +:+ nl.
Proof.
  refine (proj2 (not_found_means _ "GET k" "k" [] eq_refl) _).
  right. right. reflexivity.
Defined.

End SessionFacts.

(** ** More on the handler's loops *)

Module LoopFacts.
Import Str StrFacts IStream Codec CodecFacts ParseFacts Server DispatchFacts
       ProtocolFacts Invariants SessionFacts HandlerFacts.
Local Open Scope list_scope.

Lemma substr_0_find_no_char (s : string) (ch : ascii) (p : nat) :
  find s ch = Some p -> no_char ch (substr_0 s p) = true.
Proof.
  revert p. induction s as [|c s IH]; intros p H; simpl in H; [discriminate|].
  destruct (Ascii.eqb c ch) eqn:Hc.
  - now injection H as <-.
  - destruct (find s ch) as [q|]; [|discriminate]. injection H as <-.
    unfold no_char in *. simpl. now rewrite Hc, (IH q eq_refl).
Qed.

Lemma c_str_id (a : string) : no_char NUL a = true -> c_str a = a.
Proof.
  intros Ha. rewrite <- (StrFacts.app_empty_r a) at 1.
  rewrite (c_str_app _ _ Ha). simpl. apply StrFacts.app_empty_r.
Qed.

Lemma bytes_read_positive (data : string) :
  data <> EmptyString -> (bytes_read (Bytes data) <=? 0)%Z = false.
Proof.
  intros H. destruct data; [congruence|]. apply Z.leb_gt. simpl. lia.
Qed.

Lemma conn_eq (c1 c2 : conn) :
  store_ c1 = store_ c2 -> buffer c1 = buffer c2 -> sent c1 = sent c2 -> c1 = c2.
Proof. destruct c1, c2; simpl; congruence. Qed.

(** X10. Framing round trip: from a stream made of non-empty lines, each
    followed by the terminator, and of a tail without a terminator, the
    extraction gives back exactly those lines, in order, and the tail. *)
Theorem extract_lines_frame (lines : list string) (tail : string) :
  Forall (fun line => line <> EmptyString /\ no_char NL line = true) lines ->
  no_char NL tail = true ->
  extract_lines (frame lines +:+ tail) = (lines, tail).
Proof.
  intros Hlines Htail. induction Hlines as [|line lines [Hne Hnl] _ IH]; simpl.
  - rewrite extract_lines_step.
    apply find_none_no_char in Htail. now rewrite Htail.
  - rewrite StrFacts.app_assoc. simpl.
    rewrite extract_lines_step, (find_line _ _ Hnl). cbv zeta.
    rewrite substr_0_line, erase_0_line, IH.
    apply empty_false in Hne. now rewrite Hne.
Qed.

Lemma extract_lines_frame_witness :
  extract_lines (frame ["SET a 1"; "GET a"] +:+ "DE") = (["SET a 1"; "GET a"], "DE").
Proof.
  refine (extract_lines_frame ["SET a 1"; "GET a"] "DE" _ eq_refl).
  repeat constructor; discriminate.
Defined.

Section Peer.

Variable write_ret : nat -> Z.

(** X11. When the line loop falls through to the next [read], the buffer
    it keeps holds no terminator: every complete line has been taken out. *)
Theorem leftover_has_no_line (c c' : conn) :
  lines_loop write_ret c = Continue c' -> find (buffer c') NL = None.
Proof.
  remember (String.length (buffer c)) as n eqn:Hn. revert c Hn.
  induction n as [n IH] using lt_wf_ind. intros c -> H.
  rewrite lines_loop_step in H.
  destruct (find (buffer c) NL) as [p|] eqn:Hfind.
  - cbv zeta in H. pose proof (find_erase_shorter _ _ _ Hfind) as Hlt.
    destruct (empty (substr_0 (buffer c) p)).
    + refine (IH _ Hlt _ _ H). reflexivity.
    + destruct (process_line (store_ c) (substr_0 (buffer c) p)) as [store' response].
      destruct (write_ret (List.length (sent c)) <? 0)%Z; [discriminate|].
      refine (IH _ Hlt _ _ H). reflexivity.
  - now injection H as <-.
Qed.

Lemma respond_app (l1 l2 : list string) (s : KVStore.t) (log : list (string * Z)) :
  respond write_ret (l1 ++ l2)%list s log =
  match respond write_ret l1 s log with
  | (s', log', true) => respond write_ret l2 s' log'
  | failed => failed
  end.
Proof.
  revert s log. induction l1 as [|line l1 IH]; intros s log; simpl; [reflexivity|].
  destruct (process_line s line) as [s' response].
  destruct (write_ret (List.length log) <? 0)%Z; [reflexivity | apply IH].
Qed.

Lemma respond_all_accepted (lines : list string) (s : KVStore.t)
      (log : list (string * Z)) :
  (forall n, (0 <= write_ret n)%Z) ->
  exists s' log',
    respond write_ret lines s log = (s', (log ++ log')%list, true) /\
    List.length log' = List.length lines.
Proof.
  intros Hok. revert s log. induction lines as [|line lines IH]; intros s log; simpl.
  - exists s, []. now rewrite app_nil_r.
  - destruct (process_line s line) as [s' response].
    pose proof (Hok (List.length log)) as H. apply Z.ltb_ge in H. rewrite H.
    destruct (IH s' (log ++ [(response, write_ret (List.length log))]))
      as (s'' & log' & -> & Hlen).
    exists s'', ((response, write_ret (List.length log)) :: log').
    rewrite <- List.app_assoc. simpl. split; [reflexivity | now rewrite Hlen].
Qed.

(** X12. When no write fails, the line loop never returns: it answers
    every non-empty line of the buffer, one write for each, and keeps
    what follows the last terminator. *)
Theorem one_write_per_line (c : conn) :
  (forall n, (0 <= write_ret n)%Z) ->
  exists c',
    lines_loop write_ret c = Continue c' /\
    List.length (sent c') =
      List.length (sent c) + List.length (fst (extract_lines (buffer c))) /\
    buffer c' = snd (extract_lines (buffer c)).
Proof.
  intros Hok. pose proof (lines_loop_respond write_ret c) as H.
  destruct (respond_all_accepted (fst (extract_lines (buffer c)))
              (store_ c) (sent c) Hok) as (s' & log' & Hresp & Hlen).
  rewrite Hresp in H.
  destruct (lines_loop write_ret c) as [c'|c']; [|discriminate].
  destruct H as [H Hbuf]. exists c'. split; [reflexivity|]. split; [|exact Hbuf].
  injection H as _ <-. rewrite length_app. lia.
Qed.

End Peer.

Lemma leftover_has_no_line_witness :
  find (buffer {| store_ := KVStore.empty_store; buffer := "GE";
                  sent := [("NOT_FOUND" +:+ nl, 7%Z)] |}) NL = None.
Proof.
  exact (leftover_has_no_line (fun _ => 7%Z)
           {| store_ := KVStore.empty_store; buffer := "GET a" +:+ nl +:+ "GE";
              sent := [] |}
           {| store_ := KVStore.empty_store; buffer := "GE";
              sent := [("NOT_FOUND" +:+ nl, 7%Z)] |} eq_refl).
Defined.

Lemma one_write_per_line_witness :
  exists c',
    lines_loop (fun _ => 7%Z)
      {| store_ := KVStore.empty_store;
         buffer := "SET a 1" +:+ nl +:+ nl +:+ "GET a" +:+ nl +:+ "GE";
         sent := [] |} = Continue c' /\
    List.length (sent c') = 0 + 2 /\ buffer c' = "GE".
Proof.
  refine (one_write_per_line (fun _ => 7%Z)
            {| store_ := KVStore.empty_store;
               buffer := "SET a 1" +:+ nl +:+ nl +:+ "GET a" +:+ nl +:+ "GE";
               sent := [] |} _).
  intros n. lia.
Defined.

Section Run.

Variable write_ret : nat -> Z.

Lemma lines_loop_writes (c : conn) :
  Forall accepted (sent c) ->
  match lines_loop write_ret c with
  | Continue c' => Forall accepted (sent c')
  | Return c' =>
      exists log w, sent c' = log ++ [w] /\ Forall accepted log /\ (snd w < 0)%Z
  end.
Proof.
  remember (String.length (buffer c)) as n eqn:Hn. revert c Hn.
  induction n as [n IH] using lt_wf_ind. intros c -> Hsent.
  rewrite lines_loop_step.
  destruct (find (buffer c) NL) as [p|] eqn:Hfind; [|exact Hsent].
  cbv zeta. pose proof (find_erase_shorter _ _ _ Hfind) as Hlt.
  destruct (empty (substr_0 (buffer c) p)).
  - refine (IH _ Hlt _ _ _); [reflexivity | exact Hsent].
  - destruct (process_line (store_ c) (substr_0 (buffer c) p)) as [store' response].
    destruct (write_ret (List.length (sent c)) <? 0)%Z eqn:Hret.
    + exists (sent c), (response, write_ret (List.length (sent c))).
      repeat split; [exact Hsent|]. now apply Z.ltb_lt in Hret.
    + refine (IH _ Hlt _ _ _); [reflexivity|]. cbn [sent].
      apply Forall_app. split; [exact Hsent|]. constructor; [|constructor].
      unfold accepted. simpl. now apply Z.ltb_ge in Hret.
Qed.

Lemma read_loop_writes (reads : list read_result) (c : conn) :
  Forall accepted (sent c) ->
  Forall accepted (sent (fst (read_loop write_ret reads c))) \/
  exists log w,
    sent (fst (read_loop write_ret reads c)) = log ++ [w] /\
    Forall accepted log /\ (snd w < 0)%Z.
Proof.
  revert c. induction reads as [|r reads IH]; intros c Hsent; simpl.
  - now left.
  - destruct (bytes_read r <=? 0)%Z; [now left|].
    pose proof (lines_loop_writes
                  {| store_ := store_ c;
                     buffer := buffer c +:+
                               c_str match r with Bytes data => data | _ => EmptyString end;
                     sent := sent c |} Hsent) as H.
    destruct (lines_loop write_ret _) as [c'|c']; [now apply IH | now right].
Qed.

(** X13. Of all the writes a handler makes, only the last can have
    failed: either none failed, or the last one did and those before it did
    not. *)
Theorem at_most_one_failed_write (store : KVStore.t) (reads : list read_result) :
  Forall accepted (sent (fst (handle_client write_ret store reads))) \/
  exists log w,
    sent (fst (handle_client write_ret store reads)) = log ++ [w] /\
    Forall accepted log /\ (snd w < 0)%Z.
Proof. unfold handle_client. apply read_loop_writes. constructor. Qed.

Lemma lines_loop_keeps_wf (c : conn) :
  wf_store (store_ c) -> Forall (fun w => one_line (fst w)) (sent c) ->
  match lines_loop write_ret c with
  | Continue c' | Return c' =>
      wf_store (store_ c') /\ Forall (fun w => one_line (fst w)) (sent c')
  end.
Proof.
  remember (String.length (buffer c)) as n eqn:Hn. revert c Hn.
  induction n as [n IH] using lt_wf_ind. intros c -> Hwf Hsent.
  rewrite lines_loop_step.
  destruct (find (buffer c) NL) as [p|] eqn:Hfind; [|now split].
  cbv zeta. pose proof (find_erase_shorter _ _ _ Hfind) as Hlt.
  destruct (empty (substr_0 (buffer c) p)).
  - refine (IH _ Hlt _ _ _ _); [reflexivity | exact Hwf | exact Hsent].
  - destruct (process_line_keeps_wf (store_ c) (substr_0 (buffer c) p) Hwf
                (substr_0_find_no_char _ _ _ Hfind)) as [Hwf' Hone].
    destruct (process_line (store_ c) (substr_0 (buffer c) p)) as [store' response].
    cbn [fst snd] in Hwf', Hone.
    assert (Hsent' : Forall (fun w => one_line (fst w))
                       (sent c ++ [(response, write_ret (List.length (sent c)))])).
    { apply Forall_app. split; [exact Hsent|]. now repeat constructor. }
    destruct (write_ret (List.length (sent c)) <? 0)%Z; [now split|].
    refine (IH _ Hlt _ _ _ _); [reflexivity | exact Hwf' | exact Hsent'].
Qed.

(** X14. A handler started on a store whose keys are tokens and whose
    values are non-empty and free of terminators ends on a store of that
    kind, whatever bytes it reads and whatever its writes return; and every
    payload it writes is exactly one terminated line. *)
Theorem handle_client_keeps_wf (store : KVStore.t) (reads : list read_result) :
  wf_store store ->
  wf_store (store_ (fst (handle_client write_ret store reads))) /\
  Forall (fun w => one_line (fst w))
         (sent (fst (handle_client write_ret store reads))).
Proof.
  intros Hwf. unfold handle_client.
  assert (H : forall c,
             wf_store (store_ c) -> Forall (fun w => one_line (fst w)) (sent c) ->
             wf_store (store_ (fst (read_loop write_ret reads c))) /\
             Forall (fun w => one_line (fst w))
                    (sent (fst (read_loop write_ret reads c)))).
  { induction reads as [|r reads IH]; intros c Hc Hsent; simpl; [now split|].
    destruct (bytes_read r <=? 0)%Z; [now split|].
    pose proof (lines_loop_keeps_wf
                  {| store_ := store_ c;
                     buffer := buffer c +:+
                               c_str match r with Bytes data => data | _ => EmptyString end;
                     sent := sent c |} Hc Hsent) as H.
    destruct (lines_loop write_ret _) as [c'|c']; [|exact H].
    destruct H as [H1 H2]. now apply IH. }
  apply H; [exact Hwf | constructor].
Qed.

(** X15. Cutting a delivery in two changes neither the store nor the
    writes: for two non-empty fragments, the first free of zero bytes, the
    handler that reads them one after the other ends with the same store
    and has made the same writes, with the same results, as the handler
    that reads their concatenation at once. *)
Theorem delivery_split_same_effect
  (c : conn) (a b : string) (reads : list read_result) :
  a <> EmptyString -> b <> EmptyString -> no_char NUL a = true ->
  store_ (fst (read_loop write_ret (Bytes a :: Bytes b :: reads) c))
  = store_ (fst (read_loop write_ret (Bytes (a +:+ b) :: reads) c)) /\
  sent (fst (read_loop write_ret (Bytes a :: Bytes b :: reads) c))
  = sent (fst (read_loop write_ret (Bytes (a +:+ b) :: reads) c)).
Proof.
  intros Ha Hb Hnul.
  assert (Hab : a +:+ b <> EmptyString) by (destruct a; [congruence | discriminate]).
  cbn [read_loop].
  rewrite (bytes_read_positive _ Ha), (bytes_read_positive _ Hab).
  rewrite (c_str_app _ _ Hnul), (c_str_id _ Hnul), <- StrFacts.app_assoc.
  pose proof (lines_loop_respond write_ret
                {| store_ := store_ c; buffer := buffer c +:+ a; sent := sent c |})
    as H1.
  pose proof (lines_loop_respond write_ret
                {| store_ := store_ c; buffer := (buffer c +:+ a) +:+ c_str b;
                   sent := sent c |}) as HW.
  cbn [buffer store_ sent] in H1, HW.
  rewrite (extract_lines_app (buffer c +:+ a) (c_str b)) in HW.
  destruct (extract_lines (buffer c +:+ a)) as [l1 r1].
  destruct (lines_loop write_ret
              {| store_ := store_ c; buffer := buffer c +:+ a; sent := sent c |})
    as [c1|c1].
  - destruct H1 as [H1 Hbuf1]. cbn [fst snd] in H1, Hbuf1.
    cbn [read_loop]. rewrite (bytes_read_positive _ Hb).
    pose proof (lines_loop_respond write_ret
                  {| store_ := store_ c1; buffer := buffer c1 +:+ c_str b;
                     sent := sent c1 |}) as H2.
    cbn [buffer store_ sent] in H2. rewrite Hbuf1 in H2 |- *.
    destruct (extract_lines (r1 +:+ c_str b)) as [l2 r2].
    cbn [fst snd] in HW, H2. rewrite respond_app, H1 in HW.
    destruct (lines_loop write_ret
                {| store_ := store_ c1; buffer := r1 +:+ c_str b; sent := sent c1 |})
      as [c2|c2];
    destruct (lines_loop write_ret
                {| store_ := store_ c; buffer := (buffer c +:+ a) +:+ c_str b;
                   sent := sent c |}) as [cW|cW].
    + destruct H2 as [H2 Hbuf2], HW as [HW HbufW].
      rewrite H2 in HW. injection HW as Hs Hl.
      now rewrite (conn_eq c2 cW Hs (eq_trans Hbuf2 (eq_sym HbufW)) Hl).
    + destruct H2 as [H2 _]. rewrite H2 in HW. discriminate.
    + destruct HW as [HW _]. rewrite H2 in HW. discriminate.
    + rewrite H2 in HW. injection HW as Hs Hl. now split.
  - cbn [fst snd] in H1.
    destruct (extract_lines (r1 +:+ c_str b)) as [l2 r2].
    cbn [fst snd] in HW. rewrite respond_app, H1 in HW.
    destruct (lines_loop write_ret
                {| store_ := store_ c; buffer := (buffer c +:+ a) +:+ c_str b;
                   sent := sent c |}) as [cW|cW].
    + destruct HW as [HW _]. discriminate.
    + injection HW as Hs Hl. now split.
Qed.

End Run.

Lemma handle_client_keeps_wf_witness :
  let run := handle_client (fun n => if Nat.eqb n 1 then (-1)%Z else 4%Z)
               KVStore.empty_store
               [Bytes ("SET a b" +:+ nl +:+ "GET a" +:+ nl +:+ "DEL a" +:+ nl)] in
  wf_store (store_ (fst run)) /\
  Forall (fun w => one_line (fst w)) (sent (fst run)).
Proof.
  refine (handle_client_keeps_wf _ KVStore.empty_store _ _).
  intros k v H. discriminate.
Defined.

Lemma delivery_split_same_effect_witness :
  let c := {| store_ := KVStore.empty_store; buffer := "SE"; sent := [] |} in
  let full (n : nat) := 9%Z in
  store_ (fst (read_loop full [Bytes ("T a 1" +:+ nl +:+ "GE");
                               Bytes ("T a" +:+ nl)] c))
  = store_ (fst (read_loop full [Bytes (("T a 1" +:+ nl +:+ "GE") +:+ ("T a" +:+ nl))]
                   c)) /\
  sent (fst (read_loop full [Bytes ("T a 1" +:+ nl +:+ "GE");
                              Bytes ("T a" +:+ nl)] c))
  = sent (fst (read_loop full [Bytes (("T a 1" +:+ nl +:+ "GE") +:+ ("T a" +:+ nl))]
                  c)).
Proof.
  intros c full.
  refine (delivery_split_same_effect full c ("T a 1" +:+ nl +:+ "GE")
            ("T a" +:+ nl) [] _ _ eq_refl); discriminate.
Defined.

End LoopFacts.

(** ** The listener and [main] *)

Module ListenerFacts.
Import Listener.
Local Open Scope list_scope.

Lemma closed_app (xs ys : list call) : closed (xs ++ ys) = closed xs ++ closed ys.
Proof. unfold closed. apply flat_map_app. Qed.

Lemma accept_loop_closes_nothing (srv : server) (arrivals : list arrival) :
  closed (fst (accept_loop srv arrivals)) = [].
Proof.
  induction arrivals as [|a arrivals IH]; simpl; [reflexivity|].
  destruct (accept_loop srv arrivals) as [calls thrown].
  destruct (accept_ret a <? 0)%Z; [exact IH|].
  destruct (thread_error a); [reflexivity | exact IH].
Qed.

(** X16. The constructor does not leak the descriptor. When it throws,
    it has closed the descriptor that [socket] returned exactly once, or
    nothing if [socket] itself failed; when it succeeds it has closed
    nothing, and the server holds that descriptor, which is not negative,
    and the port it was given. *)
Theorem construct_no_leak (os : startup) (port : Z) :
  match snd (construct os port) with
  | inl _ =>
      closed (fst (construct os port))
      = if (socket_ret os <? 0)%Z then [] else [socket_ret os]
  | inr srv =>
      closed (fst (construct os port)) = [] /\
      server_fd_ srv = socket_ret os /\ (0 <= server_fd_ srv)%Z /\
      port_ srv = port
  end.
Proof.
  unfold construct.
  destruct (socket_ret os <? 0)%Z eqn:Hs; [reflexivity|].
  destruct (setsockopt_ret os <? 0)%Z; [reflexivity|].
  destruct (bind_ret os <? 0)%Z; [reflexivity|].
  destruct (listen_ret os <? 0)%Z; [reflexivity|].
  cbn. apply Z.ltb_ge in Hs. now repeat split.
Qed.

(** X17. The constructor succeeds exactly when none of its four calls
    returns a negative value, and the message of the exception names the
    first call that failed. *)
Theorem construct_first_failure (os : startup) (port : Z) :
  ((exists srv, snd (construct os port) = inr srv) <->
   (0 <= socket_ret os /\ 0 <= setsockopt_ret os /\
    0 <= bind_ret os /\ 0 <= listen_ret os)%Z) /\
  (snd (construct os port) = inl "Failed to create socket" <->
   (socket_ret os < 0)%Z) /\
  (snd (construct os port) = inl "Failed to set socket options" <->
   (0 <= socket_ret os /\ setsockopt_ret os < 0)%Z) /\
  (snd (construct os port) = inl "Failed to bind socket" <->
   (0 <= socket_ret os /\ 0 <= setsockopt_ret os /\ bind_ret os < 0)%Z) /\
  (snd (construct os port) = inl "Failed to listen on socket" <->
   (0 <= socket_ret os /\ 0 <= setsockopt_ret os /\
    0 <= bind_ret os /\ listen_ret os < 0)%Z).
Proof.
  unfold construct.
  destruct (socket_ret os <? 0)%Z eqn:H1;
    [apply Z.ltb_lt in H1 | apply Z.ltb_ge in H1;
     destruct (setsockopt_ret os <? 0)%Z eqn:H2;
       [apply Z.ltb_lt in H2 | apply Z.ltb_ge in H2;
        destruct (bind_ret os <? 0)%Z eqn:H3;
          [apply Z.ltb_lt in H3 | apply Z.ltb_ge in H3;
           destruct (listen_ret os <? 0)%Z eqn:H4;
             [apply Z.ltb_lt in H4 | apply Z.ltb_ge in H4]]]];
    cbn [snd];
    repeat match goal with
           | |- _ /\ _ => split
           | |- _ <-> _ => split
           | |- _ -> _ => intro
           | E : exists _, _ |- _ => destruct E
           | E : _ /\ _ |- _ => destruct E
           end;
    try discriminate; try lia; try reflexivity; eauto.
Qed.

Lemma construct_first_failure_witness :
  snd (construct (mk_startup 3 0 0 (-1)) 8080) = inl "Failed to listen on socket" /\
  exists srv, snd (construct (mk_startup 3 0 0 0) 8080) = inr srv.
Proof.
  split.
  - apply (proj2 (proj2 (proj2 (proj2 (construct_first_failure
                                         (mk_startup 3 0 0 (-1)) 8080))))).
    cbn. lia.
  - apply (proj1 (construct_first_failure (mk_startup 3 0 0 0) 8080)).
    cbn. lia.
Defined.



Lemma accept_loop_thrown (srv : server) (arrivals : list arrival) (what : string) :
  snd (accept_loop srv arrivals) = Some what ->
  Exists (fun a => (0 <= accept_ret a)%Z /\ thread_error a = Some what) arrivals.
Proof.
  induction arrivals as [|a arrivals IH]; simpl; [discriminate|].
  destruct (accept_loop srv arrivals) as [calls thrown]. simpl in IH.
  destruct (accept_ret a <? 0)%Z eqn:E.
  - intros H. right. now apply IH.
  - apply Z.ltb_ge in E. destruct (thread_error a) as [w|] eqn:Hw.
    + intros [= <-]. left. now split.
    + intros H. right. now apply IH.
Qed.

(** X19. How [main] can end. A failure of the constructor is not caught:
    [main] is left by that exception, with its message, and by no other.
    [main] returns only the status 1, and only after the thread of an
    accepted connection could not be started. *)
Theorem main_outcomes (os : startup) (arrivals : list arrival) :
  (forall what,
      snd (main os arrivals) = Uncaught what <->
      snd (construct os 8080) = inl what) /\
  (forall status,
      snd (main os arrivals) = Exit status ->
      status = 1%Z /\
      Exists (fun a => (0 <= accept_ret a)%Z /\ thread_error a <> None) arrivals).
Proof.
  unfold main, start.
  destruct (construct os 8080) as [calls [what|srv]]; cbn [snd].
  - split.
    + intros w. split; congruence.
    + intros status H. discriminate.
  - pose proof (accept_loop_thrown srv arrivals) as Hthrown.
    destruct (accept_loop srv arrivals) as [calls' [what|]]; cbn [snd] in *.
    + split.
      * intros w. split; discriminate.
      * intros status [= <-]. split; [reflexivity|].
        specialize (Hthrown what eq_refl).
        induction Hthrown as [a l [H1 H2]|a l _ IH]; [left | now right].
        split; [exact H1 | congruence].
    + split.
      * intros w. split; discriminate.
      * intros status H. discriminate.
Qed.

Lemma main_outcomes_witness :
  snd (main (mk_startup 3 0 (-1) 0) []) = Uncaught "Failed to bind socket" /\
  Exists (fun a => (0 <= accept_ret a)%Z /\ thread_error a <> None)
         [mk_arrival (-1) None; mk_arrival 4 (Some "Resource temporarily unavailable")].
Proof.
  split.
  - exact (proj2 (proj1 (main_outcomes (mk_startup 3 0 (-1) 0) [])
                    "Failed to bind socket") eq_refl).
  - exact (proj2 (proj2 (main_outcomes (mk_startup 3 0 0 0)
                           [mk_arrival (-1) None;
                            mk_arrival 4 (Some "Resource temporarily unavailable")])
                    1%Z eq_refl)).
Defined.

(** X20. Whenever [main] ends, by the status 1 or by the exception of the
    constructor, the listening descriptor has been closed exactly once if
    [socket] had returned one, and no other descriptor has been closed;
    while [main] is serving it has closed nothing. *)
Theorem main_closes_once (os : startup) (arrivals : list arrival) :
  closed (fst (main os arrivals)) =
  match snd (main os arrivals) with
  | Serving => []
  | Exit _ | Uncaught _ => if (socket_ret os <? 0)%Z then [] else [socket_ret os]
  end.
Proof.
  pose proof (construct_no_leak os 8080) as Hc.
  unfold main, start.
  destruct (construct os 8080) as [calls [what|srv]]; cbn [fst snd] in *;
    [exact Hc|].
  destruct Hc as (Hclosed & Hfd & Hpos & _).
  pose proof (accept_loop_closes_nothing srv arrivals) as Hloop.
  destruct (accept_loop srv arrivals) as [calls' [what|]]; cbn [fst snd] in *.
  - rewrite closed_app, Hclosed. cbn [app].
    change (PrintStarting (port_ srv) :: calls' ++
            PrintServerError what :: destruct_server srv)
      with ((PrintStarting (port_ srv) :: calls') ++
            PrintServerError what :: destruct_server srv).
    rewrite closed_app. change (closed (PrintStarting (port_ srv) :: calls'))
      with (closed calls'). rewrite Hloop. cbn [app].
    unfold destruct_server.
    replace (server_fd_ srv =? -1)%Z with false by (symmetry; apply Z.eqb_neq; lia).
    replace (socket_ret os <? 0)%Z with false by (symmetry; apply Z.ltb_ge; lia).
    rewrite <- Hfd. reflexivity.
  - rewrite closed_app, Hclosed. cbn [app]. exact Hloop.
Qed.

End ListenerFacts.
